(** * Messaging core of the backend: model and verified properties

    A shallow embedding of [controllers/messageController.js] together with
    the [Message] schema it persists through.  The MongoDB collections are
    explicit state: the user directory is a finite map keyed by [_id], the
    message collection is the list of its documents.  Every handler is a
    function from the state and the request to the new state, the events
    pushed on the socket layer and the result sent to the caller.

    Documents hold ObjectIds; requests hold strings.  Where the code hands
    a request string to a query, the query casts it to an ObjectId and
    throws when it cannot; where the code compares a request string with
    [===], the strings are compared as they are. *)

From Stdlib Require Import ZArith String Ascii.
From stdpp Require Import gmap strings list sorting pretty.

Local Open Scope string_scope.
Local Open Scope list_scope.
Local Open Scope Z_scope.

(** ** JavaScript primitives the controller relies on *)

Module Js.

(** A request field holding a string: [None] is [undefined]. *)
Definition value := option string.

(** Truthiness of a string-or-undefined value: [undefined] and [''] are
    falsy. *)
Definition truthy (v : value) : bool :=
  match v with
  | Some s => negb (String.eqb s "")
  | None => false
  end.

(** [a || b] *)
Definition or (a b : value) : value := if truthy a then a else b.

(** Code units below 256 that [String.prototype.trim] strips: TAB, LF, VT,
    FF, CR, SPACE and NBSP. *)
Definition is_whitespace (c : ascii) : bool :=
  let n := nat_of_ascii c in
  ((9 <=? n) && (n <=? 13) || (n =? 32) || (n =? 160))%nat.

Fixpoint trimStart (s : string) : string :=
  match s with
  | EmptyString => EmptyString
  | String c s' => if is_whitespace c then trimStart s' else s
  end.

Fixpoint trimEnd (s : string) : string :=
  match s with
  | EmptyString => EmptyString
  | String c s' =>
      let t := trimEnd s' in
      if is_whitespace c && String.eqb t "" then EmptyString else String c t
  end.

(** [s.trim()] *)
Definition trim (s : string) : string := trimEnd (trimStart s).

(** [n] copies of the character [c]. *)
Fixpoint repeat (c : ascii) (n : nat) : string :=
  match n with
  | O => EmptyString
  | S n' => String c (repeat c n')
  end.

End Js.

(** ** ObjectIds *)

(** An ObjectId is twelve bytes; it prints as 24 hexadecimal digits in
    lower case, and that string stands for it here.  A string is cast to
    an ObjectId when it is 24 hexadecimal digits, in either case.  (Old
    versions of the driver also read a string of 12 characters as the
    twelve bytes; that is not modelled.) *)
Module ObjectId.

Definition is_hex (c : ascii) : bool :=
  let n := nat_of_ascii c in
  ((48 <=? n) && (n <=? 57) || (97 <=? n) && (n <=? 102))%nat.

(** The digits [A] to [F] in lower case, any other character as it is. *)
Definition lower (c : ascii) : ascii :=
  let n := nat_of_ascii c in
  if ((65 <=? n) && (n <=? 70))%nat then ascii_of_nat (n + 32) else c.

Fixpoint all_hex (s : string) : bool :=
  match s with
  | EmptyString => true
  | String c s' => is_hex c && all_hex s'
  end.

Fixpoint to_lower (s : string) : string :=
  match s with
  | EmptyString => EmptyString
  | String c s' => String (lower c) (to_lower s')
  end.

(** The strings an ObjectId prints as. *)
Definition canonical (s : string) : bool :=
  (String.length s =? 24)%nat && all_hex s.

Definition t : Type := { s : string | Is_true (canonical s) }.

(** [id.toString()] *)
Definition toString (id : t) : string := proj1_sig id.

(** The cast of a query or of the schema; [None] is a CastError. *)
Definition cast (s : string) : option t :=
  match Is_true_dec (canonical (to_lower s)) with
  | left H => Some (exist _ (to_lower s) H)
  | right _ => None
  end.

End ObjectId.

Global Instance ObjectId_eq_dec : EqDecision ObjectId.t.
Proof. unfold ObjectId.t. apply _. Defined.

Global Instance ObjectId_countable : Countable ObjectId.t.
Proof. unfold ObjectId.t. apply _. Defined.

(** ** Documents *)

(** [models/User.js], the fields the messaging core reads or projects. *)
Record User := {
  u_name : string;
  u_email : string;
  u_password : string;
  u_role : string;
  u_crudCount : Z;
  u_subscription : string;
  u_profilePicture : string;
  u_isActive : bool
}.

(** A user as [populate(_, 'name email profilePicture')] and the [$project]
    stage of the conversation list show it. *)
Record Profile := {
  p_id : ObjectId.t;
  p_name : string;
  p_email : string;
  p_profilePicture : string
}.

Definition profile_of (id : ObjectId.t) (u : User) : Profile :=
  {| p_id := id; p_name := u_name u; p_email := u_email u;
     p_profilePicture := u_profilePicture u |}.

Record Attachment := {
  a_url : string;
  a_filename : string;
  a_originalName : string;
  a_size : Z;
  a_mimetype : string
}.

(** [models/Message.js] with [timestamps: true]. *)
Record Message := {
  m_id : ObjectId.t;
  sender : ObjectId.t;
  receiver : ObjectId.t;
  content : string;
  messageType : string;
  attachments : list Attachment;
  isRead : bool;
  readAt : option Z;
  createdAt : Z
}.

Global Instance Attachment_eq_dec : EqDecision Attachment.
Proof. solve_decision. Defined.

Global Instance Message_eq_dec : EqDecision Message.
Proof. solve_decision. Defined.

(** The two collections. *)
Record Store := {
  users : gmap ObjectId.t User;
  messages : list Message
}.

Definition with_messages (st : Store) (ms : list Message) : Store :=
  {| users := users st; messages := ms |}.

(** ** Results, errors and socket events *)

(** What a handler throws into [asyncHandler] instead of answering. *)
Inductive Error :=
  | CastError (path value : string)         (* mongoose CastError *)
  | ValidationFailed (paths : list string)  (* mongoose ValidationError *)
  | BadValue (reason : string).             (* rejected by the server *)

(** The JSON answer: HTTP status, [success], [message] and [data]. *)
Record Response (D : Type) := {
  status : Z;
  success : bool;
  message : option string;
  data : option D
}.
Arguments status {D} _.
Arguments success {D} _.
Arguments message {D} _.
Arguments data {D} _.

Inductive Result (D : Type) :=
  | Replied (r : Response D)
  | Threw (e : Error).
Arguments Replied {D} _.
Arguments Threw {D} _.

Definition fail {D} (code : Z) (msg : string) : Result D :=
  Replied {| status := code; success := false; message := Some msg; data := None |}.

Definition ok {D} (code : Z) (msg : option string) (d : option D) : Result D :=
  Replied {| status := code; success := true; message := msg; data := d |}.

(** The error middleware of [server.js]: whatever the error, the answer
    is a 500. *)
Definition errorHandler {D} (err : Error) : Response D :=
  {| status := 500; success := false; message := Some "Internal server error";
     data := None |}.

(** Modelled from the spec: [asyncHandler], which wraps every handler and
    whose file (middleware/asyncHandler.js) is not among the sources.
    Every failure yields a structured result with a success flag and a
    message (section 7): what the handler throws goes to [next], that is
    to the error middleware above, and its answer is what the caller
    receives. *)
Definition sent {D} (r : Result D) : Response D :=
  match r with
  | Replied r => r
  | Threw err => errorHandler err
  end.

(** A message with [sender] and [receiver] populated. *)
Record PopulatedMessage := {
  pm_doc : Message;
  pm_sender : option Profile;
  pm_receiver : option Profile
}.

(** Identifiers in a payload are strings where the code puts a request
    string or [req.user.id] there, ObjectIds where it puts an [_id]. *)
Inductive Payload :=
  | MessagePayload (data : PopulatedMessage) (event : string)
  | ConversationUpdated (userId : string) (lastMessage : PopulatedMessage)
  | MessagesRead (userId : string) (messageIds : list ObjectId.t)
  | MessageDeleted (messageId deletedBy : string)
  | TypingIndicator (userId : string) (isTyping : bool) (userName : string).

(** [io.to(room).emit(name, payload)] *)
Record Event := {
  room : string;
  name : string;
  payload : Payload
}.

(** Everything a handler call leaves behind. *)
Record Outcome (D : Type) := {
  out_store : Store;
  out_events : list Event;
  out_files : list string;
  out_result : Result D
}.
Arguments out_store {D} _.
Arguments out_events {D} _.
Arguments out_files {D} _.
Arguments out_result {D} _.

(** The error classes of the design (section 7), read off the answer the
    caller receives: 404 is NotFound, the self-messaging 400 is
    InvalidOperation, the other 400s are ValidationError, and anything
    else, the 500 of the error middleware with it, is a server error. *)
Inductive ErrorClass := ValidationError | NotFound | InvalidOperation | ServerError.

Definition msg_self := "Cannot send message to yourself".

Definition error_class {D} (r : Result D) : option ErrorClass :=
  let r := sent r in
  if success r then None
  else if status r =? 404 then Some NotFound
  else if status r =? 400 then
    if bool_decide (message r = Some msg_self) then Some InvalidOperation
    else Some ValidationError
  else Some ServerError.

Definition succeeded {D} (r : Result D) : bool :=
  match r with
  | Replied r => success r
  | Threw _ => false
  end.

(** ** The runtime around a handler call *)

Record Env := {
  io : bool;                    (* app.get('socketio') is set *)
  now : Z;                      (* the clock of the store: createdAt, readAt *)
  fresh_id : ObjectId.t;        (* the ObjectId of the next document *)
  extname : string → string;    (* path.extname *)
  date_now : nat → Z;           (* Date.now() while staging file i *)
  random36 : nat → string       (* Math.random().toString(36).substring(7) *)
}.

(** [req.user] as the [protect] middleware leaves it: the user document,
    of which the handlers read [id], that is [_id.toString()], and [name]. *)
Record AuthUser := {
  au_id : ObjectId.t;
  au_name : string
}.

(** [req.user.id] *)
Definition user_id (user : AuthUser) : string := ObjectId.toString (au_id user).

(** ** Collection queries *)

Module Mongo.

(** [sort({ createdAt: -1 })]: newest first. *)
Definition newer_first (a b : Message) : Prop := createdAt b ≤ createdAt a.

Global Instance newer_first_dec a b : Decision (newer_first a b).
Proof. unfold newer_first. apply _. Defined.

Definition sort_desc (l : list Message) : list Message :=
  merge_sort newer_first l.

(** [skip(s).limit(n)] after the sort.  The server refuses a negative
    skip; a negative limit asks for its absolute value in one batch. *)
Definition page_of {A} (s n : Z) (l : list A) : Error + list A :=
  if s <? 0 then inl (BadValue "skip")
  else inr (take (Z.to_nat (Z.abs n)) (drop (Z.to_nat s) l)).

(** [User.findById(id)]: the string is cast to the ObjectId it stands
    for, and the answer is the document with that [_id], if any. *)
Definition findById (st : Store) (id : string) : Error + option (ObjectId.t * User) :=
  match ObjectId.cast id with
  | None => inl (CastError "_id" id)
  | Some i => inr (pair i <$> users st !! i)
  end.

(** [populate('sender', ...)] then [populate('receiver', ...)] *)
Definition populate (st : Store) (m : Message) : PopulatedMessage :=
  {| pm_doc := m;
     pm_sender := profile_of (sender m) <$> users st !! sender m;
     pm_receiver := profile_of (receiver m) <$> users st !! receiver m |}.

(** [findByIdAndDelete(id)]: the first document with that [_id] goes. *)
Fixpoint deleteById (id : ObjectId.t) (l : list Message) : list Message :=
  match l with
  | [] => []
  | m :: l' => if bool_decide (m_id m = id) then l' else m :: deleteById id l'
  end.

(** [updateMany(q, { isRead: true, readAt: t })] *)
Definition mark_read (t : Z) (m : Message) : Message :=
  {| m_id := m_id m; sender := sender m; receiver := receiver m;
     content := content m; messageType := messageType m;
     attachments := attachments m; isRead := true; readAt := Some t;
     createdAt := createdAt m |}.

Definition updateMany (q : Message → Prop) `{∀ m, Decision (q m)}
    (f : Message → Message) (l : list Message) : list Message :=
  (λ m, if decide (q m) then f m else m) <$> l.

End Mongo.

(** ** controllers/messageController.js *)

(** An uploaded file as express-fileupload hands it over. *)
Record File := {
  f_name : string;
  f_size : Z;
  f_mimetype : string
}.

(** A field of [req.files] holds one file or an array of files. *)
Inductive FileField :=
  | One (f : File)
  | Many (fs : list File).

(** [Array.isArray(x) ? x : [x]] *)
Definition as_array (x : FileField) : list File :=
  match x with
  | One f => [f]
  | Many fs => fs
  end.

Record SendRequest := {
  sr_user : AuthUser;
  sr_receiver : Js.value;
  sr_content : Js.value;
  sr_messageType : Js.value;
  sr_files : option (gmap string FileField)
}.

Definition allowedTypes : list string :=
  ["image/jpeg"; "image/jpg"; "image/png"; "image/gif"; "image/webp";
   "application/pdf"].

Definition max_file_size : Z := 5 * 1024 * 1024.

Definition msg_file_type := "Invalid file type. Only images and PDFs are allowed".
Definition msg_file_size := "File size too large. Maximum size is 5MB per file".
Definition msg_receiver_required := "Receiver ID is required".
Definition msg_receiver_not_found := "Receiver not found".
Definition msg_content_required := "Message content is required".

(** The body of the loop over the uploaded files, from file number [i] on:
    the descriptors pushed so far and, when a file is refused, the message
    of the 400 answer that ends the request. *)
Fixpoint stage (env : Env) (uid : string) (i : nat) (files : list File)
    (acc : list Attachment) : list Attachment * option string :=
  match files with
  | [] => (acc, None)
  | file :: rest =>
      if negb (bool_decide (f_mimetype file ∈ allowedTypes)) then
        (acc, Some msg_file_type)
      else if max_file_size <? f_size file then
        (acc, Some msg_file_size)
      else
        let fileExtension := extname env (f_name file) in
        let fileName :=
          "message-" +:+ uid +:+ "-" +:+ pretty (date_now env i) +:+ "-"
            +:+ random36 env i +:+ fileExtension in
        stage env uid (S i) rest
          (acc ++ [{| a_url := "/uploads/" +:+ fileName;
                      a_filename := fileName;
                      a_originalName := f_name file;
                      a_size := f_size file;
                      a_mimetype := f_mimetype file |}])
  end.

(** The [messageType] enum of the schema. *)
Definition messageTypes : list string := ["text"; "image"; "file"].

Definition content_maxlength : nat := 1000.

(** The paths of a new message that fail the validators of the schema:
    [content] is trimmed by its setter, then required and at most 1000
    long; [messageType] is one of the enum. *)
Definition invalid_paths (c t : string) : list string :=
  (if bool_decide (Js.trim c = "") then ["content"]
   else if (content_maxlength <? String.length (Js.trim c))%nat then ["content"]
   else [])
  ++ (if bool_decide (t ∈ messageTypes) then [] else ["messageType"]).

(** The paths whose string the schema cannot cast to an ObjectId. *)
Definition uncast_paths (s r : string) : list string :=
  match ObjectId.cast s with Some _ => [] | None => ["sender"] end
  ++ match ObjectId.cast r with Some _ => [] | None => ["receiver"] end.

(** [Message.create({ sender, receiver, content, messageType, attachments })]:
    the schema casts [sender] and [receiver], validates, and the document
    is inserted. *)
Definition Message_create (env : Env) (st : Store) (s r c t : string)
    (atts : list Attachment) : Store * (Error + Message) :=
  match ObjectId.cast s, ObjectId.cast r with
  | Some s', Some r' =>
      match invalid_paths c t with
      | [] =>
          let m := {| m_id := fresh_id env; sender := s'; receiver := r';
                      content := Js.trim c; messageType := t; attachments := atts;
                      isRead := false; readAt := None; createdAt := now env |} in
          (with_messages st (messages st ++ [m]), inr m)
      | paths => (st, inl (ValidationFailed paths))
      end
  | _, _ => (st, inl (ValidationFailed (uncast_paths s r ++ invalid_paths c t)))
  end.

Definition answer {D} (st : Store) (r : Result D) : Outcome D :=
  {| out_store := st; out_events := []; out_files := []; out_result := r |}.

(** [req.files.attachments] as an array, empty when there is none. *)
Definition uploadedFiles (req : SendRequest) : list File :=
  match sr_files req ≫= (.!! "attachments") with
  | Some x => as_array x
  | None => []
  end.

Definition sendMessage (env : Env) (st : Store) (req : SendRequest)
    : Outcome PopulatedMessage :=
  let uid := user_id (sr_user req) in
  let receiver := sr_receiver req in
  let content := sr_content req in
  let messageType := Some (default "text" (sr_messageType req)) in
  (* form data: the fields are read again from the body *)
  let has_files :=
    match sr_files req with
    | Some fs => bool_decide (0 < size fs)%nat
    | None => false
    end in
  let receiver := if has_files then Js.or receiver (sr_receiver req) else receiver in
  let content := if has_files then Js.or content (sr_content req) else content in
  let messageType :=
    if has_files
    then Js.or (Js.or messageType (sr_messageType req)) (Some "text")
    else messageType in
  if negb (Js.truthy receiver) then
    answer st (fail 400 msg_receiver_required)
  else
    let receiver := default "" receiver in
    match Mongo.findById st receiver with
    | inl err => answer st (Threw err)
    | inr None => answer st (fail 404 msg_receiver_not_found)
    | inr (Some _) =>
        if bool_decide (receiver = uid) then
          answer st (fail 400 msg_self)
        else if negb (Js.truthy content)
                || bool_decide (Js.trim (default "" content) = "") then
          answer st (fail 400 msg_content_required)
        else
          let content := default "" content in
          match stage env uid 0 (uploadedFiles req) [] with
          | (staged, Some msg) =>
              {| out_store := st; out_events := [];
                 out_files := a_filename <$> staged;
                 out_result := fail 400 msg |}
          | (attachments, None) =>
              let t := if bool_decide (0 < length attachments)%nat then "file"
                       else default "" messageType in
              match Message_create env st uid receiver (Js.trim content) t
                      attachments with
              | (st', inl err) =>
                  {| out_store := st'; out_events := [];
                     out_files := a_filename <$> attachments;
                     out_result := Threw err |}
              | (st', inr m) =>
                  let message := Mongo.populate st' m in
                  {| out_store := st';
                     out_events :=
                       if io env then
                         [ {| room := receiver; name := "receive_message";
                              payload := MessagePayload message "new_message" |};
                           {| room := uid; name := "message_sent";
                              payload := MessagePayload message "message_sent" |};
                           {| room := receiver; name := "conversation_updated";
                              payload := ConversationUpdated uid message |};
                           {| room := uid; name := "conversation_updated";
                              payload := ConversationUpdated receiver message |} ]
                       else [];
                     out_files := a_filename <$> attachments;
                     out_result :=
                       ok 201 (Some "Message sent successfully") (Some message) |}
              end
          end
    end.

(** [GET /api/messages/conversation/:userId]; [cr_page] and [cr_limit] are
    what [parseInt] makes of the query strings, [None] for [NaN]. *)
Record ConversationRequest := {
  cr_user : AuthUser;
  cr_userId : string;
  cr_page : option Z;
  cr_limit : option Z
}.

(** [parseInt(q) || d]: [NaN] and [0] are falsy. *)
Definition int_or (q : option Z) (d : Z) : Z :=
  match q with
  | Some n => if n =? 0 then d else n
  | None => d
  end.

Record Pagination := {
  pg_page : Z;
  pg_limit : Z;
  pg_total : nat;
  pg_pages : Z
}.

Record ConversationData := {
  cd_messages : list PopulatedMessage;
  cd_otherUser : Profile;
  cd_pagination : Pagination
}.

(** The messages of the pair: [{ $or: [{ sender: u, receiver: p },
    { sender: p, receiver: u }] }]. *)
Definition between (u p : ObjectId.t) (m : Message) : Prop :=
  (sender m = u ∧ receiver m = p) ∨ (sender m = p ∧ receiver m = u).

Global Instance between_dec u p m : Decision (between u p m).
Proof. unfold between. apply _. Defined.

(** [{ sender: p, receiver: u, isRead: false }] *)
Definition unread_from (p u : ObjectId.t) (m : Message) : Prop :=
  sender m = p ∧ receiver m = u ∧ isRead m = false.

Global Instance unread_from_dec p u m : Decision (unread_from p u m).
Proof. unfold unread_from. apply _. Defined.

(** [Math.ceil(total / limit)], [limit] not zero. *)
Definition ceil_div (total limit : Z) : Z := - ((- total) `div` limit).

(** The queries on the messages cast [req.user.id] back to the [_id] it
    prints, and [otherUserId] as [findById] did. *)
Definition getConversation (env : Env) (st : Store) (req : ConversationRequest)
    : Outcome ConversationData :=
  let uid := au_id (cr_user req) in
  let otherUserId := cr_userId req in
  let page := int_or (cr_page req) 1 in
  let limit := int_or (cr_limit req) 50 in
  let skip := (page - 1) * limit in
  match Mongo.findById st otherUserId with
  | inl err => answer st (Threw err)
  | inr None => answer st (fail 404 "User not found")
  | inr (Some (other_id, other)) =>
      match Mongo.page_of skip limit
              (Mongo.sort_desc (filter (between uid other_id) (messages st))) with
      | inl err => answer st (Threw err)
      | inr found =>
          let messages_ := Mongo.populate st <$> found in
          (* mark messages as read *)
          let unreadMessages := filter (unread_from other_id uid) (messages st) in
          let marked := bool_decide (0 < length unreadMessages)%nat in
          let st' :=
            if marked
            then with_messages st
                   (Mongo.updateMany (unread_from other_id uid)
                      (Mongo.mark_read (now env)) (messages st))
            else st in
          let total := length (filter (between uid other_id) (messages st')) in
          {| out_store := st';
             out_events :=
               if marked && io env
               then [ {| room := otherUserId; name := "messages_read";
                         payload := MessagesRead (user_id (cr_user req))
                                      (m_id <$> unreadMessages) |} ]
               else [];
             out_files := [];
             out_result :=
               ok 200 None
                 (Some {| cd_messages := reverse messages_;
                          cd_otherUser := profile_of other_id other;
                          cd_pagination :=
                            {| pg_page := page; pg_limit := limit;
                               pg_total := total;
                               pg_pages := ceil_div (Z.of_nat total) limit |} |}) |}
      end
  end.

(** [GET /api/messages/unread-count] *)
Definition unread_for (u : ObjectId.t) (m : Message) : Prop :=
  receiver m = u ∧ isRead m = false.

Global Instance unread_for_dec u m : Decision (unread_for u m).
Proof. unfold unread_for. apply _. Defined.

Definition unreadCount (st : Store) (u : ObjectId.t) : nat :=
  length (filter (unread_for u) (messages st)).

Definition getUnreadCount (st : Store) (user : AuthUser) : Outcome nat :=
  answer st (ok 200 None (Some (unreadCount st (au_id user)))).

(** [DELETE /api/messages/:id] *)
Definition owned_by (id uid : ObjectId.t) (m : Message) : Prop :=
  m_id m = id ∧ sender m = uid.

Global Instance owned_by_dec id uid m : Decision (owned_by id uid m).
Proof. unfold owned_by. apply _. Defined.

Definition msg_delete_refused :=
  "Message not found or you are not authorized to delete this message".

(** [findOne] casts [req.params.id] for the [_id] it asks for, and throws
    when it cannot. *)
Definition deleteMessage (env : Env) (st : Store) (user : AuthUser) (id : string)
    : Outcome Message :=
  match ObjectId.cast id with
  | None => answer st (Threw (CastError "_id" id))
  | Some oid =>
      match head (filter (owned_by oid (au_id user)) (messages st)) with
      | None => answer st (fail 404 msg_delete_refused)
      | Some message =>
          let deletedMessage := head (filter (λ m, m_id m = oid) (messages st)) in
          {| out_store := with_messages st (Mongo.deleteById oid (messages st));
             out_events :=
               if io env
               then [ {| room := ObjectId.toString (receiver message);
                         name := "message_deleted";
                         payload := MessageDeleted id (user_id user) |} ]
               else [];
             out_files := [];
             out_result :=
               ok 200 (Some "Message deleted successfully") deletedMessage |}
      end
  end.

(** [POST /api/messages/typing] *)
Record TypingRequest := {
  tr_user : AuthUser;
  tr_receiverId : Js.value;
  tr_isTyping : bool
}.

Definition sendTypingIndicator (env : Env) (st : Store) (req : TypingRequest)
    : Outcome unit :=
  if negb (Js.truthy (tr_receiverId req)) then
    answer st (fail 400 msg_receiver_required)
  else
    {| out_store := st;
       out_events :=
         if io env
         then [ {| room := default "" (tr_receiverId req);
                   name := "typing_indicator";
                   payload := TypingIndicator (user_id (tr_user req))
                                (tr_isTyping req) (au_name (tr_user req)) |} ]
         else [];
       out_files := [];
       out_result :=
         ok 200 (Some (if tr_isTyping req then "Typing indicator sent"
                       else "Typing indicator stopped")) None |}.

(** [GET /api/messages/conversations]: the aggregation pipeline, stage by
    stage, for [new mongoose.Types.ObjectId(req.user.id)] as [u]. *)

(** [$match]: self is sender or receiver. *)
Definition involves (u : ObjectId.t) (m : Message) : Prop :=
  sender m = u ∨ receiver m = u.

Global Instance involves_dec u m : Decision (involves u m).
Proof. unfold involves. apply _. Defined.

(** The [_id] of [$group]: [$cond: [{ $eq: ['$sender', self] }, '$receiver',
    '$sender']]. *)
Definition peer_of (u : ObjectId.t) (m : Message) : ObjectId.t :=
  if decide (sender m = u) then receiver m else sender m.

(** The summand of [unreadCount]. *)
Definition unread_inc (u : ObjectId.t) (m : Message) : nat :=
  if decide (unread_for u m) then 1%nat else 0%nat.

Record Group := {
  g_id : ObjectId.t;
  g_lastMessage : Message;
  g_unreadCount : nat;
  g_totalMessages : nat
}.

(** A document opens a group: [$first] is the document itself. *)
Definition open_group (u : ObjectId.t) (m : Message) : Group :=
  {| g_id := peer_of u m; g_lastMessage := m;
     g_unreadCount := unread_inc u m; g_totalMessages := 1 |}.

(** A document joins its group: [$first] keeps what it has, the two
    [$sum]s grow. *)
Definition join_group (u : ObjectId.t) (m : Message) (g : Group) : Group :=
  {| g_id := g_id g; g_lastMessage := g_lastMessage g;
     g_unreadCount := g_unreadCount g + unread_inc u m;
     g_totalMessages := g_totalMessages g + 1 |}.

(** One document enters [$group]. *)
Fixpoint accumulate (u : ObjectId.t) (m : Message) (gs : list Group) : list Group :=
  match gs with
  | [] => [open_group u m]
  | g :: gs' =>
      if decide (g_id g = peer_of u m) then join_group u m g :: gs'
      else g :: accumulate u m gs'
  end.

Definition group_stage (u : ObjectId.t) (l : list Message) : list Group :=
  foldl (λ gs m, accumulate u m gs) [] l.

Record Conversation := {
  c_id : ObjectId.t;
  c_lastMessage : Message;
  c_unreadCount : nat;
  c_totalMessages : nat;
  c_user : Profile
}.

(** [$lookup] into [users] on [_id], [$unwind: '$user'] and [$project]: a
    group whose [_id] names no user yields no row. *)
Definition lookup_unwind (st : Store) (g : Group) : option Conversation :=
  (λ usr, {| c_id := g_id g; c_lastMessage := g_lastMessage g;
             c_unreadCount := g_unreadCount g;
             c_totalMessages := g_totalMessages g;
             c_user := profile_of (g_id g) usr |}) <$> users st !! g_id g.

(** [$sort: { 'lastMessage.createdAt': -1 }] *)
Definition last_newer_first (a b : Conversation) : Prop :=
  createdAt (c_lastMessage b) ≤ createdAt (c_lastMessage a).

Global Instance last_newer_first_dec a b : Decision (last_newer_first a b).
Proof. unfold last_newer_first. apply _. Defined.

Definition aggregate (st : Store) (u : ObjectId.t) : list Conversation :=
  let matched := filter (involves u) (messages st) in
  let sorted := Mongo.sort_desc matched in
  let groups := group_stage u sorted in
  let rows := omap (lookup_unwind st) groups in
  merge_sort last_newer_first rows.

Definition getConversations (st : Store) (user : AuthUser)
    : Outcome (list Conversation) :=
  answer st (ok 200 None (Some (aggregate st (au_id user)))).

(** [PUT /api/messages/mark-read]: what [req.body.messageIds] holds. *)
Inductive IdsField :=
  | NoIds                      (* undefined *)
  | ScalarIds (s : string)     (* a string, not an array *)
  | ArrayIds (ids : list string).

Record MarkRequest := {
  mr_user : AuthUser;
  mr_messageIds : IdsField
}.

(** [!messageIds || !Array.isArray(messageIds) || messageIds.length === 0] *)
Definition no_ids (f : IdsField) : bool :=
  match f with
  | NoIds => true
  | ScalarIds _ => true
  | ArrayIds ids => bool_decide (length ids = 0%nat)
  end.

Definition listed (f : IdsField) : list string :=
  match f with
  | ArrayIds ids => ids
  | _ => []
  end.

(** [{ _id: { $in: ids }, receiver: self, isRead: false }] *)
Definition markable (ids : list ObjectId.t) (u : ObjectId.t) (m : Message) : Prop :=
  m_id m ∈ ids ∧ receiver m = u ∧ isRead m = false.

Global Instance markable_dec ids u m : Decision (markable ids u m).
Proof. unfold markable. apply _. Defined.

Definition msg_ids_required := "Message IDs array is required".
Definition msg_mark_failed := "Server error while marking messages as read".

(** The query casts every element of [$in]; when one of them is not an
    ObjectId it throws before anything is updated, and the [catch] answers
    500.  The answer carries [modifiedCount] as its data. *)
Definition markMessagesAsRead (env : Env) (st : Store) (req : MarkRequest)
    : Outcome nat :=
  let messageIds := mr_messageIds req in
  if no_ids messageIds then
    answer st (fail 400 msg_ids_required)
  else
    let uid := au_id (mr_user req) in
    match mapM ObjectId.cast (listed messageIds) with
    | Some ids =>
        let modifiedCount := length (filter (markable ids uid) (messages st)) in
        answer
          (with_messages st
             (Mongo.updateMany (markable ids uid)
                (Mongo.mark_read (now env)) (messages st)))
          (ok 200
             (Some ("Marked " +:+ pretty modifiedCount +:+ " messages as read"))
             (Some modifiedCount))
    | None => answer st (fail 500 msg_mark_failed)
    end.

(** [DELETE /api/users/:id] of [controllers/userController.js]. *)
Definition deleteUser (st : Store) (self : AuthUser) (id : string) : Outcome unit :=
  match Mongo.findById st id with
  | inl err => answer st (Threw err)
  | inr None => answer st (fail 404 "User not found")
  | inr (Some (user_oid, user)) =>
      if bool_decide (ObjectId.toString user_oid = user_id self) then
        answer st (fail 400 "You cannot delete your own account")
      else
        answer {| users := delete user_oid (users st); messages := messages st |}
          (ok 200 (Some "User deleted successfully") None)
  end.

(** The XSS middleware of [server.js], on one string of the body. *)
Module Server.

(** The second replacement, of every match of a ['<'], any characters
    other than ['>'], and then a ['>'] or the end of the string, by
    nothing: from every ['<'] up to and with the next ['>'], or up to the
    end when there is none.  [inside] tells that the scan is within such a
    match. *)
Fixpoint strip_tags_from (inside : bool) (s : string) : string :=
  match s with
  | EmptyString => EmptyString
  | String c s' =>
      if inside then
        if Ascii.eqb c ">" then strip_tags_from false s'
        else strip_tags_from true s'
      else if Ascii.eqb c "<" then strip_tags_from true s'
      else String c (strip_tags_from false s')
  end.

Definition strip_tags (s : string) : string := strip_tags_from false s.

(** The two replacements in a row; [strip_scripts] stands for the first,
    which removes the script elements. *)
Definition sanitize (strip_scripts : string → string) (s : string) : string :=
  strip_tags (strip_scripts s).

(** [sanitizeObject(req.body)] on the body of a send request. *)
Definition sanitize_send (strip_scripts : string → string) (req : SendRequest)
    : SendRequest :=
  {| sr_user := sr_user req;
     sr_receiver := sanitize strip_scripts <$> sr_receiver req;
     sr_content := sanitize strip_scripts <$> sr_content req;
     sr_messageType := sanitize strip_scripts <$> sr_messageType req;
     sr_files := sr_files req |}.

End Server.

(** [routes/messages.js]: one call of the router. *)
Inductive Call :=
  | PostMessage (env : Env) (req : SendRequest)
  | GetConversations (user : AuthUser)
  | GetConversation (env : Env) (req : ConversationRequest)
  | PutMarkRead (env : Env) (req : MarkRequest)
  | DeleteMessage (env : Env) (user : AuthUser) (id : string)
  | GetUnreadCount (user : AuthUser)
  | PostTyping (env : Env) (req : TypingRequest).

(** The store a call leaves. *)
Definition dispatch (st : Store) (c : Call) : Store :=
  match c with
  | PostMessage env req => out_store (sendMessage env st req)
  | GetConversations user => out_store (getConversations st user)
  | GetConversation env req => out_store (getConversation env st req)
  | PutMarkRead env req => out_store (markMessagesAsRead env st req)
  | DeleteMessage env user id => out_store (deleteMessage env st user id)
  | GetUnreadCount user => out_store (getUnreadCount st user)
  | PostTyping env req => out_store (sendTypingIndicator env st req)
  end.

Definition serve (calls : list Call) (st : Store) : Store :=
  foldl dispatch st calls.

(** ** Vocabulary of the properties *)

(** [req.user] after [protect]: a registered user. *)
Definition authenticated (st : Store) (user : AuthUser) : Prop :=
  is_Some (users st !! au_id user).

(** The receiver field passes the guards on the receiver: it is the
    identifier of a registered user, and it is not [req.user.id]. *)
Definition deliverable (st : Store) (req : SendRequest) : Prop :=
  ∃ r p, sr_receiver req = Some r ∧ ObjectId.cast r = Some p
         ∧ is_Some (users st !! p) ∧ r ≠ user_id (sr_user req).

(** The content as the request carries it, [''] when there is none. *)
Definition raw_content (req : SendRequest) : string :=
  default "" (sr_content req).

(** A file the loop refuses. *)
Definition refused (f : File) : Prop :=
  f_mimetype f ∉ allowedTypes ∨ max_file_size < f_size f.

Global Instance refused_dec f : Decision (refused f).
Proof. unfold refused. apply _. Defined.

(** The message type the caller asks for: the field when it is a non-empty
    string, ['text'] otherwise. *)
Definition requested_type (req : SendRequest) : string :=
  match sr_messageType req with
  | Some t => if bool_decide (t = "") then "text" else t
  | None => "text"
  end.

(** A field that is absent or empty. *)
Definition missing (v : Js.value) : Prop := v = None ∨ v = Some "".

(** The store after a sequence of typing-indicator calls. *)
Definition typing_run (calls : list (Env * TypingRequest)) (st : Store) : Store :=
  foldl (λ s call, out_store (sendTypingIndicator call.1 s call.2)) st calls.

(** The offset the request asks for is one the server accepts. *)
Definition valid_page (req : ConversationRequest) : Prop :=
  0 ≤ (int_or (cr_page req) 1 - 1) * int_or (cr_limit req) 50.



(** What a group of [$group] says about the documents [l] seen so far. *)
Definition summarises (u : ObjectId.t) (l : list Message) (g : Group) : Prop :=
  head (filter (λ m, peer_of u m = g_id g) l) = Some (g_lastMessage g)
  ∧ g_unreadCount g
    = length (filter (λ m, peer_of u m = g_id g ∧ unread_for u m) l)
  ∧ g_totalMessages g = length (filter (λ m, peer_of u m = g_id g) l).

(** The groups [gs] are the grouping of the documents [l]: one group per
    key, no key left out, each group summarising its documents. *)
Definition grouped (u : ObjectId.t) (gs : list Group) (l : list Message) : Prop :=
  NoDup (g_id <$> gs)
  ∧ (∀ k, k ∈ g_id <$> gs ↔ ∃ m, m ∈ l ∧ peer_of u m = k)
  ∧ Forall (summarises u l) gs.

(** The same runtime with the socket layer present or absent. *)
Definition with_io (b : bool) (env : Env) : Env :=
  {| io := b; now := now env; fresh_id := fresh_id env;
     extname := extname env; date_now := date_now env;
     random36 := random36 env |}.

(** A file the loop accepts. *)
Definition accepted (f : File) : Prop :=
  f_mimetype f ∈ allowedTypes ∧ f_size f ≤ max_file_size.

Global Instance accepted_dec f : Decision (accepted f).
Proof. unfold accepted. apply _. Defined.

(** The descriptor is the one of that file. *)
Definition describes (a : Attachment) (f : File) : Prop :=
  a_originalName a = f_name f ∧ a_size a = f_size f
  ∧ a_mimetype a = f_mimetype f
  ∧ a_url a = "/uploads/" +:+ a_filename a.

(** What the schema and the controller let into the collection. *)
Definition sound (m : Message) : Prop :=
  content m ≠ "" ∧ Js.trim (content m) = content m
  ∧ (String.length (content m) ≤ content_maxlength)%nat
  ∧ messageType m ∈ messageTypes
  ∧ (attachments m ≠ [] → messageType m = "file")
  ∧ Forall (λ a, a_mimetype a ∈ allowedTypes ∧ a_size a ≤ max_file_size)
      (attachments m)
  ∧ (isRead m = true ↔ is_Some (readAt m)).

Global Instance sound_dec m : Decision (sound m).
Proof. unfold sound. apply _. Defined.


(** No ['<'] in the string. *)
Fixpoint tagless (s : string) : Prop :=
  match s with
  | EmptyString => True
  | String c s' => c ≠ "<"%char ∧ tagless s'
  end.

(** The documents a served conversation request returns. *)
Definition returned (o : Outcome ConversationData) : list Message :=
  match out_result o with
  | Replied r =>
      match data r with
      | Some d => pm_doc <$> cd_messages d
      | None => []
      end
  | Threw _ => []
  end.


(** The request for page [k] of size [n]. *)
Definition page_request (user : AuthUser) (peer : string) (k n : Z)
    : ConversationRequest :=
  {| cr_user := user; cr_userId := peer; cr_page := Some k; cr_limit := Some n |}.

(** The sum of the unread counts of a conversation list. *)
Definition unread_total (rows : list Conversation) : nat :=
  foldr (λ r n, (c_unreadCount r + n)%nat) 0%nat rows.

(** The sum of the unread counts of the groups of [$group]. *)
Definition unread_sum (gs : list Group) : nat :=
  foldr (λ g n, (g_unreadCount g + n)%nat) 0%nat gs.

(** ** Sample data *)

Module Fixture.

Definition hexA : string := "65a1f0c2e4b0a1b2c3d4e5f1".
Definition hexB : string := "65a1f0c2e4b0a1b2c3d4e5f2".

(** The identifier of alice with its letters in upper case. *)
Definition hexA_upper : string := "65A1F0C2E4B0A1B2C3D4E5F1".

Definition idA : ObjectId.t := hexA ↾ I.
Definition idB : ObjectId.t := hexB ↾ I.

Definition member (n : string) : User :=
  {| u_name := n; u_email := n +:+ "@example.com"; u_password := "$2a$12$hash";
     u_role := "user"; u_crudCount := 0; u_subscription := "free";
     u_profilePicture := ""; u_isActive := true |}.

Definition alice : AuthUser := {| au_id := idA; au_name := "alice" |}.
Definition bob : AuthUser := {| au_id := idB; au_name := "bob" |}.

Definition directory : gmap ObjectId.t User :=
  {[ idA := member "alice"; idB := member "bob" ]}.

Definition env_at (t : Z) (id : ObjectId.t) : Env :=
  {| io := true; now := t; fresh_id := id;
     extname := λ _, ".png";
     date_now := λ _, t;
     random36 := λ _, "k3x9q" |}.

Definition env : Env := env_at 1700000000000 ("65b000000000000000000009" ↾ I).
Definition later : Env := env_at 1700000060000 ("65b00000000000000000000a" ↾ I).

(** Nobody has written yet. *)
Definition quiet : Store := {| users := directory; messages := [] |}.

Definition text_request (from : AuthUser) (to content : Js.value) : SendRequest :=
  {| sr_user := from; sr_receiver := to; sr_content := content;
     sr_messageType := None; sr_files := None |}.

Definition picture : File :=
  {| f_name := "cat.png"; f_size := 2048; f_mimetype := "image/png" |}.

Definition archive : File :=
  {| f_name := "all.zip"; f_size := 2048; f_mimetype := "application/zip" |}.

(** Files sent along with the text 'see attached', asking for the type
    ['image']. *)
Definition upload (from : AuthUser) (to : string) (files : list File) : SendRequest :=
  {| sr_user := from; sr_receiver := Some to;
     sr_content := Some "see attached"; sr_messageType := Some "image";
     sr_files := Some {[ "attachments" := Many files ]} |}.

(** alice sends them to bob. *)
Definition upload_request (files : list File) : SendRequest :=
  upload alice hexB files.

Definition note (id from to : ObjectId.t) (t : Z) (read : bool) : Message :=
  {| m_id := id; sender := from; receiver := to; content := "hello";
     messageType := "text"; attachments := []; isRead := read;
     readAt := if read then Some (t + 1) else None; createdAt := t |}.

Definition m1 : ObjectId.t := "65b000000000000000000001" ↾ I.
Definition m2 : ObjectId.t := "65b000000000000000000002" ↾ I.
Definition m3 : ObjectId.t := "65b000000000000000000003" ↾ I.

(** alice wrote once, bob answered twice; alice has not looked yet. *)
Definition chat : Store :=
  {| users := directory;
     messages := [note m1 idA idB 10 true; note m2 idB idA 20 false;
                  note m3 idB idA 30 false] |}.

Definition open_chat : ConversationRequest :=
  {| cr_user := alice; cr_userId := hexB; cr_page := None; cr_limit := Some 2 |}.

(** bob wrote to alice, and then an administrator deleted bob's account. *)
Definition orphaned : Store :=
  {| users := {[ idA := member "alice" ]};
     messages := [note m1 idB idA 10 false] |}.

(** One letter and a thousand spaces. *)
Definition padded : string := String "a" (Js.repeat " " 1000).

(** A thousand and one letters. *)
Definition long : string := Js.repeat "a" 1001.

End Fixture.

(** More sample data. *)
Module Sample.

(** alice marks everything she can see. *)
Definition mark_all : MarkRequest :=
  {| mr_user := Fixture.alice;
     mr_messageIds :=
       ArrayIds (ObjectId.toString <$> [Fixture.m1; Fixture.m2; Fixture.m3]) |}.

(** The same with something that is no identifier in the list. *)
Definition mark_some : MarkRequest :=
  {| mr_user := Fixture.alice;
     mr_messageIds := ArrayIds [ObjectId.toString Fixture.m2; "abc"] |}.

Definition greeting : SendRequest :=
  Fixture.text_request Fixture.alice (Some Fixture.hexB) (Some " hi ").

Definition markup : SendRequest :=
  Fixture.text_request Fixture.alice (Some Fixture.hexB) (Some "<b>hi</b> there").

(** An identifier nobody has. *)
Definition stranger : string := "65a1f0c2e4b0a1b2c3d4e5ff".

Definition to_stranger : ConversationRequest :=
  {| cr_user := Fixture.alice; cr_userId := stranger;
     cr_page := None; cr_limit := None |}.

Definition far_page : ConversationRequest :=
  page_request Fixture.alice Fixture.hexB 7 2.

(** alice writes to herself, with her identifier in upper case. *)
Definition to_herself : SendRequest :=
  Fixture.text_request Fixture.alice (Some Fixture.hexA_upper) (Some "note to self").

Definition session : list Call :=
  [ PostMessage Fixture.env greeting;
    GetConversation Fixture.later
      {| cr_user := Fixture.bob; cr_userId := Fixture.hexA;
         cr_page := None; cr_limit := None |};
    DeleteMessage Fixture.later Fixture.alice
      (ObjectId.toString (fresh_id Fixture.env)) ].

End Sample.

(** * Properties *)

(** ** JavaScript primitives *)

Lemma or_self (v : Js.value) : Js.or v v = v.
Proof. unfold Js.or. by destruct (Js.truthy v). Qed.

Lemma truthy_Some (v : Js.value) :
  Js.truthy v = true ↔ ∃ s, v = Some s ∧ s ≠ "".
Proof.
  destruct v as [s|]; simpl.
  - rewrite negb_true_iff. split.
    + intros Hs. exists s. split; [done|]. intros ->. by rewrite String.eqb_refl in Hs.
    + intros (s' & [= <-] & Hne). by apply String.eqb_neq.
  - split; [done|]. by intros (s & ? & _).
Qed.

Lemma trimEnd_idemp s : Js.trimEnd (Js.trimEnd s) = Js.trimEnd s.
Proof.
  induction s as [|c s IH]; simpl; [done|].
  destruct (Js.is_whitespace c) eqn:Hc; simpl.
  - destruct (String.eqb_spec (Js.trimEnd s) ""); simpl; [done|].
    rewrite Hc, IH. simpl.
    destruct (String.eqb_spec (Js.trimEnd s) ""); simpl; congruence.
  - by rewrite Hc, IH.
Qed.

Lemma trimStart_head s :
  Js.trimStart s = "" ∨
  ∃ c s', Js.trimStart s = String c s' ∧ Js.is_whitespace c = false.
Proof.
  induction s as [|c s IH]; simpl; [by left|].
  destruct (Js.is_whitespace c) eqn:Hc; [done|]. right. by exists c, s.
Qed.

(** Trimming twice, as the controller and then the schema setter do, is
    trimming once. *)
Lemma trim_idemp s : Js.trim (Js.trim s) = Js.trim s.
Proof.
  unfold Js.trim. destruct (trimStart_head s) as [->|(c & s' & -> & Hc)]; [done|].
  simpl. rewrite Hc. simpl. rewrite Hc. simpl. rewrite Hc. simpl.
  by rewrite trimEnd_idemp.
Qed.

Lemma if_same {A} (b : bool) (x : A) : (if b then x else x) = x.
Proof. by destruct b. Qed.

(** ** ObjectIds *)

Lemma lower_hex c : ObjectId.is_hex c = true → ObjectId.lower c = c.
Proof.
  destruct c as [[] [] [] [] [] [] [] []]; vm_compute; congruence.
Qed.

Lemma to_lower_hex s : ObjectId.all_hex s = true → ObjectId.to_lower s = s.
Proof.
  induction s as [|c s IH]; simpl; [done|].
  intros [Hc Hs]%andb_true_iff. by rewrite lower_hex, IH.
Qed.

Lemma to_lower_canonical s :
  ObjectId.canonical s = true → ObjectId.to_lower s = s.
Proof. intros [_ Hs]%andb_true_iff. by apply to_lower_hex. Qed.

(** An ObjectId is what its string casts to. *)
Lemma cast_toString (id : ObjectId.t) : ObjectId.cast (ObjectId.toString id) = Some id.
Proof.
  destruct id as [s H]. unfold ObjectId.cast, ObjectId.toString. simpl.
  assert (ObjectId.to_lower s = s) as Hs.
  { apply to_lower_canonical. by apply Is_true_true. }
  destruct (Is_true_dec _) as [H'|H'].
  - f_equal. by apply (sig_eq_pi _).
  - destruct H'. by rewrite Hs.
Qed.

(** What casts to an ObjectId is a spelling of its string. *)
Lemma cast_Some s id :
  ObjectId.cast s = Some id → ObjectId.toString id = ObjectId.to_lower s.
Proof.
  unfold ObjectId.cast. destruct (Is_true_dec _); [|done]. by intros [= <-].
Qed.

Lemma cast_not_empty s id : ObjectId.cast s = Some id → s ≠ "".
Proof. intros Hs ->. vm_compute in Hs. discriminate. Qed.

Global Instance toString_inj : Inj (=) (=) ObjectId.toString.
Proof.
  intros a b Hab. apply (inj Some). by rewrite <-!cast_toString, Hab.
Qed.

Lemma mapM_cast_toString (l : list ObjectId.t) :
  mapM ObjectId.cast (ObjectId.toString <$> l) = Some l.
Proof.
  apply mapM_Some. induction l as [|a l IH]; csimpl; constructor; [|done].
  apply cast_toString.
Qed.

Lemma findById_cast st s id :
  ObjectId.cast s = Some id → Mongo.findById st s = inr (pair id <$> users st !! id).
Proof. intros Hs. unfold Mongo.findById. by rewrite Hs. Qed.

Lemma findById_malformed st s :
  ObjectId.cast s = None → Mongo.findById st s = inl (CastError "_id" s).
Proof. intros Hs. unfold Mongo.findById. by rewrite Hs. Qed.

(** ** Sending *)

Section Send.
Variables (env : Env) (st : Store) (req : SendRequest).

Let uid := user_id (sr_user req).

Lemma send_no_receiver :
  Js.truthy (sr_receiver req) = false →
  sendMessage env st req = answer st (fail 400 msg_receiver_required).
Proof.
  intros H. unfold sendMessage. by rewrite !or_self, !if_same, H.
Qed.

Lemma send_malformed_receiver r :
  sr_receiver req = Some r → r ≠ "" → ObjectId.cast r = None →
  sendMessage env st req = answer st (Threw (CastError "_id" r)).
Proof.
  intros H Hr Hc. unfold sendMessage. rewrite !or_self, !if_same.
  assert (Js.truthy (sr_receiver req) = true) as -> by (apply truthy_Some; eauto).
  rewrite H. simpl. by rewrite findById_malformed.
Qed.

Lemma send_unknown_receiver r p :
  sr_receiver req = Some r → ObjectId.cast r = Some p → users st !! p = None →
  sendMessage env st req = answer st (fail 404 msg_receiver_not_found).
Proof.
  intros H Hc Hu. unfold sendMessage. rewrite !or_self, !if_same.
  assert (Js.truthy (sr_receiver req) = true) as ->.
  { apply truthy_Some. exists r. split; [done|]. by eapply cast_not_empty. }
  rewrite H. simpl. by rewrite (findById_cast _ _ p), Hu.
Qed.

Lemma send_to_self :
  authenticated st (sr_user req) → sr_receiver req = Some uid →
  sendMessage env st req = answer st (fail 400 msg_self).
Proof.
  intros [u Hu] H. unfold sendMessage. rewrite !or_self, !if_same.
  pose proof (cast_toString (au_id (sr_user req))) as Hc. fold (user_id (sr_user req)) in Hc.
  fold uid in Hc.
  assert (Js.truthy (sr_receiver req) = true) as ->.
  { apply truthy_Some. exists uid. split; [done|]. by eapply cast_not_empty. }
  rewrite H. simpl. rewrite (findById_cast _ _ _ Hc), Hu. simpl.
  by rewrite bool_decide_eq_true_2.
Qed.

(** No content, or nothing but white space. *)
Lemma blank_content :
  negb (Js.truthy (sr_content req))
  || bool_decide (Js.trim (default "" (sr_content req)) = "") = true
  ↔ Js.trim (raw_content req) = "".
Proof.
  unfold raw_content. destruct (sr_content req) as [c|]; simpl; [|done].
  rewrite orb_true_iff, negb_true_iff, negb_false_iff, bool_decide_eq_true.
  split; [|by right]. intros [Hc|]; [|done].
  apply String.eqb_eq in Hc. by subst.
Qed.

(** Whatever goes wrong, the collections stay as they were. *)
Lemma send_failed_frame :
  succeeded (out_result (sendMessage env st req)) = false →
  out_store (sendMessage env st req) = st.
Proof.
  unfold sendMessage, Message_create. rewrite !or_self, !if_same.
  repeat (case_match; simpl; try done); congruence.
Qed.

(** Past the guards on the receiver, the request is judged by its content
    first. *)
Lemma send_blank :
  deliverable st req → Js.trim (raw_content req) = "" →
  sendMessage env st req = answer st (fail 400 msg_content_required).
Proof.
  intros (r & p & Hr & Hc & [u Hu] & Hself) Hblank%blank_content.
  unfold sendMessage. rewrite !or_self, !if_same.
  assert (Js.truthy (sr_receiver req) = true) as ->.
  { apply truthy_Some. exists r. split; [done|]. by eapply cast_not_empty. }
  rewrite Hr. simpl. rewrite (findById_cast _ _ p), Hu by done. simpl.
  rewrite bool_decide_eq_false_2 by done. by rewrite Hblank.
Qed.

End Send.

Lemma cast_user_id user : ObjectId.cast (user_id user) = Some (au_id user).
Proof. apply cast_toString. Qed.

Section Stage.
Variables (env : Env) (uid : string).

Lemma stage_message files : ∀ i acc staged msg,
  stage env uid i files acc = (staged, Some msg) →
  msg = msg_file_type ∨ msg = msg_file_size.
Proof.
  induction files as [|f files IH]; intros i acc staged msg; simpl; [done|].
  repeat case_match; try (intros [= _ <-]; by eauto). apply IH.
Qed.

Lemma stage_refuses files : ∀ i acc atts,
  Exists refused files → stage env uid i files acc ≠ (atts, None).
Proof.
  induction files as [|f files IH]; intros i acc atts Hex; simpl.
  - by apply Exists_nil in Hex.
  - destruct (bool_decide_reflect (f_mimetype f ∈ allowedTypes)) as [Hty|Hty];
      simpl; [|done].
    destruct (Z.ltb_spec max_file_size (f_size f)) as [Hsz|Hsz]; [done|].
    apply Exists_cons in Hex as [[?|?]|Hex]; [done|lia|]. by apply IH.
Qed.

Lemma stage_length files : ∀ i acc atts,
  stage env uid i files acc = (atts, None) →
  length atts = (length acc + length files)%nat.
Proof.
  induction files as [|f files IH]; intros i acc atts; simpl.
  - intros [= <-]. lia.
  - repeat case_match; try done. intros Hst%IH. rewrite Hst, length_app. simpl. lia.
Qed.

Lemma stage_all files : ∀ i acc,
  Forall accepted files → ∃ atts, stage env uid i files acc = (atts, None).
Proof.
  induction files as [|f files IH]; intros i acc Hall; simpl; [by eexists|].
  apply Forall_cons in Hall as [[Hty Hsz] Hall].
  rewrite bool_decide_eq_true_2 by done. simpl.
  destruct (Z.ltb_spec max_file_size (f_size f)); [lia|]. by apply IH.
Qed.

End Stage.

Section SendClaims.
Variables (env : Env) (st : Store) (req : SendRequest).

Lemma class_of_400 {D} msg :
  msg ≠ msg_self → error_class (@fail D 400 msg) = Some ValidationError.
Proof.
  intros H. unfold error_class. simpl.
  rewrite bool_decide_eq_false_2; [done|congruence].
Qed.

Lemma send_refused_fails :
  Exists refused (uploadedFiles req) →
  succeeded (out_result (sendMessage env st req)) = false.
Proof.
  intros Hex. unfold sendMessage. rewrite !or_self, !if_same.
  repeat (case_match; simpl; try done).
  all: by eapply stage_refuses in Hex.
Qed.

(** Past the guards on the receiver, a refused file is a 400. *)
Lemma send_refused_class :
  deliverable st req → Exists refused (uploadedFiles req) →
  error_class (out_result (sendMessage env st req)) = Some ValidationError.
Proof.
  intros (r & p & Hr & Hc & [u Hu] & Hself) Hex. unfold sendMessage.
  rewrite !or_self, !if_same.
  assert (Js.truthy (sr_receiver req) = true) as ->.
  { apply truthy_Some. exists r. split; [done|]. by eapply cast_not_empty. }
  rewrite Hr. simpl. rewrite (findById_cast _ _ p), Hu by done. simpl.
  rewrite bool_decide_eq_false_2 by done.
  destruct (_ || _); [done|].
  destruct (stage _ _ _ _ _) as [staged [msg|]] eqn:Hst.
  - by apply stage_message in Hst as [-> | ->].
  - by eapply stage_refuses in Hex.
Qed.

Lemma invalid_long c t :
  (content_maxlength < String.length (Js.trim c))%nat →
  invalid_paths (Js.trim c) t ≠ [] ∧ "content" ∈ invalid_paths (Js.trim c) t.
Proof.
  intros Hlen. unfold invalid_paths. rewrite trim_idemp.
  destruct (bool_decide _).
  - split; [done|]. apply elem_of_app. left. left.
  - destruct (Nat.ltb_spec content_maxlength (String.length (Js.trim c))); [|lia].
    split; [done|]. apply elem_of_app. left. left.
Qed.

Lemma send_invalid_content_fails :
  Js.trim (raw_content req) = ""
  ∨ (content_maxlength < String.length (Js.trim (raw_content req)))%nat →
  succeeded (out_result (sendMessage env st req)) = false.
Proof.
  intros Hc. unfold sendMessage, Message_create. rewrite !or_self, !if_same.
  destruct (negb (Js.truthy (sr_receiver req))); [done|].
  destruct (Mongo.findById _ _) as [err|[[p usr]|]]; [done| |done].
  destruct (bool_decide (_ = user_id _)); [done|].
  destruct (_ || _) eqn:Hblank; [done|].
  destruct Hc as [Hc|Hc].
  { apply blank_content in Hc. congruence. }
  destruct (stage _ _ _ _ _) as [staged [msg|]]; [done|].
  destruct (ObjectId.cast (user_id _)); [|done].
  destruct (ObjectId.cast (default "" _)); [|done].
  destruct (invalid_paths _ _) eqn:Hp; [|done].
  by apply (invalid_long (raw_content req)) in Hp.
Qed.

(** Past the guards on the receiver and with files that all pass, content
    that is too long is refused by the schema: the handler throws. *)
Lemma send_long :
  deliverable st req → Forall accepted (uploadedFiles req) →
  (content_maxlength < String.length (Js.trim (raw_content req)))%nat →
  ∃ paths,
    out_result (sendMessage env st req) = Threw (ValidationFailed paths)
    ∧ "content" ∈ paths.
Proof.
  intros (r & p & Hr & Hc & [u Hu] & Hself) Hfiles Hlen.
  unfold sendMessage, Message_create. rewrite !or_self, !if_same.
  assert (Js.truthy (sr_receiver req) = true) as ->.
  { apply truthy_Some. exists r. split; [done|]. by eapply cast_not_empty. }
  rewrite Hr. simpl. rewrite (findById_cast _ _ p), Hu by done. simpl.
  rewrite bool_decide_eq_false_2 by done.
  destruct (_ || _) eqn:Hblank.
  { apply blank_content in Hblank. rewrite Hblank in Hlen. simpl in Hlen.
    unfold content_maxlength in Hlen. lia. }
  destruct (stage_all env (user_id (sr_user req)) (uploadedFiles req) 0 [] Hfiles)
    as [atts ->].
  rewrite cast_user_id, Hc.
  match goal with |- context [invalid_paths ?c ?t] =>
    destruct (invalid_long (raw_content req) t Hlen) as [Hne Hin];
    change c with (Js.trim (raw_content req));
    destruct (invalid_paths (Js.trim (raw_content req)) t) as [|path paths] eqn:Hp
  end; [done|].
  simpl. by eexists.
Qed.

End SendClaims.

(** C10: a request without any receiver is answered 400 'Receiver ID is
    required' whatever the store, the sender, the content and the files
    are, and leaves everything as it was; a receiver identifier that names
    no user is answered differently, 404 'Receiver not found'. *)
Theorem send_without_receiver env st req :
  sr_receiver req = None →
  sendMessage env st req = answer st (fail 400 msg_receiver_required)
  ∧ error_class (out_result (sendMessage env st req)) = Some ValidationError
  ∧ ∀ req' r p, sr_receiver req' = Some r → ObjectId.cast r = Some p →
      users st !! p = None →
      sendMessage env st req' = answer st (fail 404 msg_receiver_not_found)
      ∧ error_class (out_result (sendMessage env st req')) = Some NotFound.
Proof.
  intros H. rewrite send_no_receiver by (by rewrite H). split_and!; [done..|].
  intros req' r p Hr Hc Hu. by rewrite (send_unknown_receiver _ _ _ r p).
Qed.

(** C4: the guard against writing to oneself compares the receiver field
    with [req.user.id] as strings.  When the field is the caller's
    identifier as [req.user.id] spells it, the request is answered 400
    'Cannot send message to yourself' (InvalidOperation) and nothing is
    persisted, whatever the content and the files are.  When it is the
    same identifier spelt otherwise, the guard lets it pass: a request with
    valid content is answered 201 and a message whose sender is its
    receiver is persisted. *)
Theorem send_to_self_by_spelling env st req r :
  authenticated st (sr_user req) →
  sr_receiver req = Some r →
  ObjectId.cast r = Some (au_id (sr_user req)) →
  (r = user_id (sr_user req) →
     sendMessage env st req = answer st (fail 400 msg_self)
     ∧ error_class (out_result (sendMessage env st req)) = Some InvalidOperation)
  ∧ (r ≠ user_id (sr_user req) →
     sr_files req = None → sr_messageType req = None →
     Js.trim (raw_content req) ≠ "" →
     (String.length (Js.trim (raw_content req)) ≤ content_maxlength)%nat →
     ∃ m,
       out_result (sendMessage env st req)
       = ok 201 (Some "Message sent successfully")
           (Some (Mongo.populate (out_store (sendMessage env st req)) m))
       ∧ messages (out_store (sendMessage env st req)) = messages st ++ [m]
       ∧ sender m = au_id (sr_user req) ∧ receiver m = au_id (sr_user req)).
Proof.
  intros Hauth Hr Hc. split.
  - intros ->. by rewrite send_to_self.
  - intros Hne Hfiles Hty Hblank Hlen. destruct Hauth as [u Hu].
    unfold sendMessage, Message_create, uploadedFiles.
    rewrite !or_self, !if_same, Hfiles, Hty.
    assert (Js.truthy (sr_receiver req) = true) as ->.
    { apply truthy_Some. exists r. split; [done|]. by eapply cast_not_empty. }
    rewrite Hr. simpl. rewrite (findById_cast _ _ _ Hc), Hu. simpl.
    rewrite bool_decide_eq_false_2 by done.
    destruct (_ || _) eqn:Hb.
    { by apply blank_content in Hb. }
    rewrite cast_user_id, Hc. unfold invalid_paths.
    change (default "" (sr_content req)) with (raw_content req).
    rewrite trim_idemp, bool_decide_eq_false_2 by done.
    destruct (Nat.ltb_spec content_maxlength (String.length (Js.trim (raw_content req))));
      [lia|].
    simpl. by eexists.
Qed.

(** C3 as amended: a request with an attachment of a type outside the
    allow-list or larger than 5MB fails and leaves the store as it was;
    when its receiver passes the guards on the receiver, the failure is a
    ValidationError. *)
Theorem send_refused_attachment env st req :
  Exists refused (uploadedFiles req) →
  succeeded (out_result (sendMessage env st req)) = false
  ∧ out_store (sendMessage env st req) = st
  ∧ (deliverable st req →
     error_class (out_result (sendMessage env st req)) = Some ValidationError).
Proof.
  intros Hex. pose proof (send_refused_fails env st req Hex) as Hfail.
  split_and!; [done|by apply send_failed_frame|].
  intros Hd. by apply send_refused_class.
Qed.

(** C5 as amended: a request whose content is empty or only white space
    after trimming, or longer than 1000 characters after trimming, fails
    and creates no message; when its receiver passes the guards on the
    receiver, blank content is answered 400 'Message content is required',
    a ValidationError. *)
Theorem send_invalid_content env st req :
  Js.trim (raw_content req) = ""
  ∨ (content_maxlength < String.length (Js.trim (raw_content req)))%nat →
  succeeded (out_result (sendMessage env st req)) = false
  ∧ out_store (sendMessage env st req) = st
  ∧ (deliverable st req → Js.trim (raw_content req) = "" →
     sendMessage env st req = answer st (fail 400 msg_content_required)
     ∧ error_class (out_result (sendMessage env st req)) = Some ValidationError).
Proof.
  intros Hc. pose proof (send_invalid_content_fails env st req Hc) as Hfail.
  split_and!; [done|by apply send_failed_frame|].
  intros Hd Hblank. by rewrite send_blank.
Qed.

Lemma no_files_no_attachments req :
  match sr_files req with
  | Some fs => bool_decide (0 < size fs)%nat
  | None => false
  end = false →
  uploadedFiles req = [].
Proof.
  unfold uploadedFiles. destruct (sr_files req) as [fs|]; simpl; [|done].
  intros Hsz%bool_decide_eq_false.
  assert (fs = ∅) as -> by (apply map_size_empty_iff; lia).
  by rewrite lookup_empty.
Qed.

(** C6: the message a successful send persists has type ['file'] when the
    request carries attachments, whatever type the caller asked for, and
    the type the caller asked for (['text'] when none) when it carries no
    attachment. *)
Theorem send_message_type env st req :
  succeeded (out_result (sendMessage env st req)) = true →
  ∃ m, messages (out_store (sendMessage env st req)) = messages st ++ [m]
       ∧ length (attachments m) = length (uploadedFiles req)
       ∧ messageType m =
           if bool_decide (uploadedFiles req = []) then requested_type req
           else "file".
Proof.
  unfold sendMessage, Message_create. rewrite !or_self, !if_same.
  destruct (negb (Js.truthy (sr_receiver req))); [done|].
  destruct (Mongo.findById _ _) as [err|[[p usr]|]]; [done| |done].
  destruct (bool_decide (_ = user_id _)); [done|].
  destruct (_ || _); [done|].
  destruct (stage _ _ _ _ _) as [atts [msg|]] eqn:Hst; [done|].
  apply stage_length in Hst. simpl in Hst.
  destruct (ObjectId.cast (user_id _)) as [s'|]; [|done].
  destruct (ObjectId.cast (default "" _)) as [r'|]; [|done].
  destruct (invalid_paths _ _) eqn:Hp; [|done]. simpl. intros _.
  eexists. split_and!; [done..|]. simpl.
  destruct (uploadedFiles req) as [|f files] eqn:Hup.
  - rewrite bool_decide_eq_false_2 by (rewrite Hst; simpl; lia).
    rewrite bool_decide_eq_true_2 by done.
    rewrite bool_decide_eq_false_2 in Hp by (rewrite Hst; simpl; lia).
    unfold requested_type. destruct (sr_messageType req) as [t|]; simpl.
    + destruct (bool_decide_reflect (t = "")) as [->|Ht].
      * destruct (match sr_files req with Some _ => _ | None => _ end); [done|].
        simpl in Hp. unfold invalid_paths in Hp.
        by repeat case_match.
      * assert (Js.truthy (Some t) = true) as Htr by (apply truthy_Some; eauto).
        unfold Js.or. rewrite !Htr. by rewrite if_same.
    + by rewrite if_same.
  - rewrite bool_decide_eq_true_2 by (rewrite Hst; simpl; lia).
    by rewrite bool_decide_eq_false_2.
Qed.

(** ** Typing indicators *)

Lemma falsy_missing (v : Js.value) : Js.truthy v = false ↔ missing v.
Proof.
  unfold missing. destruct v as [s|]; simpl.
  - rewrite negb_false_iff, String.eqb_eq. split.
    + intros ->. by right.
    + by intros [?|[= ->]].
  - split; [by left|done].
Qed.

Lemma typing_frame env st req : out_store (sendTypingIndicator env st req) = st.
Proof. unfold sendTypingIndicator. by destruct (negb _). Qed.

(** C9: typing indicators leave the store as it is, over any sequence of
    calls, and a call fails, with a ValidationError, exactly when its
    receiverId is missing. *)
Theorem typing_never_persists calls st :
  typing_run calls st = st
  ∧ ∀ env req,
      (missing (tr_receiverId req) ↔
       error_class (out_result (sendTypingIndicator env st req)) = Some ValidationError)
      ∧ (¬ missing (tr_receiverId req) ↔
         succeeded (out_result (sendTypingIndicator env st req)) = true).
Proof.
  split.
  - unfold typing_run. induction calls as [|c calls IH]; simpl; [done|].
    by rewrite typing_frame.
  - intros env req. rewrite <-falsy_missing. unfold sendTypingIndicator.
    destruct (Js.truthy (tr_receiverId req)); simpl; naive_solver.
Qed.

(** ** Deleting *)

Section Head.
Context {A : Type} (P : A → Prop) `{∀ x, Decision (P x)}.

Lemma head_filter_None (l : list A) :
  head (filter P l) = None ↔ ∀ x, x ∈ l → ¬ P x.
Proof.
  induction l as [|a l IH]; simpl.
  - split; [|done]. intros _ x Hx. by apply elem_of_nil in Hx.
  - rewrite filter_cons. destruct (decide (P a)) as [Ha|Ha]; simpl.
    + split; [done|]. intros Hall. destruct (Hall a); [left|done].
    + rewrite IH. split.
      * intros Hall x [->|Hx]%elem_of_cons; auto.
      * intros Hall x Hx. apply Hall. by right.
Qed.

Lemma head_filter_Some (l : list A) x :
  head (filter P l) = Some x → x ∈ l ∧ P x.
Proof.
  intros Hhd. assert (x ∈ filter P l) as Hin.
  { destruct (filter P l); simplify_eq/=. left. }
  apply list_elem_of_filter in Hin. tauto.
Qed.
End Head.

Lemma unique_by_id (l : list Message) m m' :
  NoDup (m_id <$> l) → m ∈ l → m' ∈ l → m_id m = m_id m' → m = m'.
Proof.
  induction l as [|a l IH]; simpl.
  - intros _ Hm. by apply elem_of_nil in Hm.
  - intros [Ha Hl]%NoDup_cons [->|Hm]%elem_of_cons [->|Hm']%elem_of_cons Hid;
      [done| | |by apply IH].
    + destruct Ha. rewrite Hid. by apply list_elem_of_fmap_2.
    + destruct Ha. rewrite <-Hid. by apply list_elem_of_fmap_2.
Qed.

Lemma deleteById_unique id (l : list Message) :
  NoDup (m_id <$> l) → Mongo.deleteById id l = filter (λ m, m_id m ≠ id) l.
Proof.
  induction l as [|m l IH]; simpl; [done|]. intros [Hm Hl]%NoDup_cons.
  rewrite filter_cons. destruct (bool_decide_reflect (m_id m = id)) as [Heq|Hne].
  - rewrite decide_False by naive_solver. clear IH. subst id.
    induction l as [|a l IH]; [done|]. simpl in *.
    apply not_elem_of_cons in Hm as [Hma Hm]. apply NoDup_cons in Hl as [_ Hl].
    rewrite filter_cons, decide_True by done. f_equal. by apply IH.
  - rewrite decide_True by done. f_equal. by apply IH.
Qed.

Lemma delete_malformed env st user id :
  ObjectId.cast id = None →
  deleteMessage env st user id = answer st (Threw (CastError "_id" id)).
Proof. intros Hid. unfold deleteMessage. by rewrite Hid. Qed.

(** C8: for an :id that is the identifier of a message, deleting a message
    that does not exist, or whose sender is someone else, is answered by
    one and the same 404 and leaves the store as it was; the message goes
    only when the caller is its sender, and then it is gone for good. *)
Theorem delete_only_by_sender env st user id oid :
  ObjectId.cast id = Some oid →
  NoDup (m_id <$> messages st) →
  ((∀ m, m ∈ messages st → m_id m = oid → sender m ≠ au_id user) →
     deleteMessage env st user id = answer st (fail 404 msg_delete_refused)
     ∧ error_class (out_result (deleteMessage env st user id)) = Some NotFound)
  ∧ (∀ m, m ∈ messages st → m_id m = oid → sender m = au_id user →
     out_result (deleteMessage env st user id)
       = ok 200 (Some "Message deleted successfully") (Some m)
     ∧ messages (out_store (deleteMessage env st user id))
       = filter (λ m', m_id m' ≠ oid) (messages st))
  ∧ (out_store (deleteMessage env st user id) ≠ st →
     ∃ m, m ∈ messages st ∧ m_id m = oid ∧ sender m = au_id user).
Proof.
  intros Hid Hnd. unfold deleteMessage. rewrite Hid. split_and!.
  - intros Hall.
    assert (head (filter (owned_by oid (au_id user)) (messages st)) = None) as ->; [|done].
    apply head_filter_None. intros m Hm [Hi Hs]. by eapply Hall.
  - intros m Hm Hi Hs.
    destruct (head (filter (owned_by _ _) _)) as [m'|] eqn:Hhd.
    + simpl. split; [|by apply deleteById_unique].
      destruct (head (filter (λ m0, m_id m0 = oid) _)) as [m''|] eqn:Hhd'.
      * apply head_filter_Some in Hhd' as [Hm'' Hid''].
        by rewrite (unique_by_id (messages st) m m'') by congruence.
      * rewrite head_filter_None in Hhd'. by destruct (Hhd' m).
    + rewrite head_filter_None in Hhd. destruct (Hhd m); [done|]. by split.
  - destruct (head (filter (owned_by _ _) _)) as [m'|] eqn:Hhd; [|done].
    intros _. apply head_filter_Some in Hhd as [Hm' [Hi Hs]]. eauto.
Qed.

(** ** Reading a conversation *)

Global Instance newer_first_trans : Transitive Mongo.newer_first.
Proof. unfold Mongo.newer_first. intros a b c. lia. Qed.

Global Instance newer_first_total : Total Mongo.newer_first.
Proof. unfold Mongo.newer_first. intros a b. lia. Qed.

Lemma sort_desc_perm l : Mongo.sort_desc l ≡ₚ l.
Proof. apply merge_sort_Permutation. Qed.

Lemma sort_desc_sorted l : StronglySorted Mongo.newer_first (Mongo.sort_desc l).
Proof. apply StronglySorted_merge_sort; apply _. Qed.

Section Sweep.
Variables (p u : ObjectId.t) (t : Z).

Let sweep (m : Message) : Message :=
  if decide (unread_from p u m) then Mongo.mark_read t m else m.

Lemma sweep_hit m : unread_from p u m → sweep m = Mongo.mark_read t m.
Proof. intros Hm. unfold sweep. by rewrite decide_True. Qed.

Lemma sweep_miss m : ¬ unread_from p u m → sweep m = m.
Proof. intros Hm. unfold sweep. by rewrite decide_False. Qed.

Lemma sweep_cases m :
  (unread_from p u m ∧ sweep m = Mongo.mark_read t m)
  ∨ (¬ unread_from p u m ∧ sweep m = m).
Proof.
  destruct (decide (unread_from p u m)); [left|right]; split; try done.
  - by apply sweep_hit.
  - by apply sweep_miss.
Qed.

(** After the bulk update nothing from [p] to [u] is unread. *)
Lemma sweep_clears (l : list Message) :
  filter (unread_from p u) (sweep <$> l) = [].
Proof.
  induction l as [|m l IH]; csimpl; [done|]. rewrite filter_cons, IH.
  destruct (sweep_cases m) as [[Hm ->]|[Hm ->]].
  - rewrite decide_False; [done|]. by intros (_ & _ & ?).
  - by rewrite decide_False.
Qed.

(** The unread count of [u] drops by the number of messages swept. *)
Lemma sweep_count (l : list Message) :
  (length (filter (unread_for u) (sweep <$> l))
   + length (filter (unread_from p u) l)
   = length (filter (unread_for u) l))%nat.
Proof.
  induction l as [|m l IH]; csimpl; [done|]. rewrite !filter_cons.
  destruct (sweep_cases m) as [[Hm ->]|[Hm ->]].
  - rewrite (decide_True (P := unread_from p u m)) by done.
    destruct Hm as (Hs & Hr & Hread).
    rewrite (decide_False (P := unread_for u (Mongo.mark_read t m)))
      by (by intros [_ ?]).
    rewrite (decide_True (P := unread_for u m)) by done. simpl. lia.
  - rewrite (decide_False (P := unread_from p u m)) by done.
    destruct (decide (unread_for u m)); simpl; lia.
Qed.

(** Without anything to sweep, the bulk update changes nothing. *)
Lemma sweep_nothing (l : list Message) :
  filter (unread_from p u) l = [] → sweep <$> l = l.
Proof.
  induction l as [|m l IH]; csimpl; [done|]. rewrite filter_cons.
  destruct (sweep_cases m) as [[Hm ->]|[Hm ->]].
  - by rewrite decide_True.
  - rewrite decide_False by done. intros Hl. by rewrite IH.
Qed.

End Sweep.

Section Conversation.
Variables (env : Env) (st : Store) (req : ConversationRequest) (p : ObjectId.t).

Let u := au_id (cr_user req).

(** The store a served request leaves: the old one with the messages
    from the peer to self swept. *)
Lemma conversation_store :
  ObjectId.cast (cr_userId req) = Some p →
  is_Some (users st !! p) → valid_page req →
  messages (out_store (getConversation env st req))
  = (λ m, if decide (unread_from p u m) then Mongo.mark_read (now env) m else m)
      <$> messages st.
Proof.
  intros Hc [other Hp] Hpage. unfold getConversation, Mongo.page_of.
  rewrite (findById_cast _ _ p), Hp by done. simpl. fold u.
  destruct (Z.ltb_spec ((int_or (cr_page req) 1 - 1) * int_or (cr_limit req) 50) 0) as [Hneg|_].
  { unfold valid_page in Hpage. lia. }
  simpl. destruct (bool_decide_reflect (0 < length (filter (unread_from p u) (messages st)))%nat) as [Hpos|Hzero].
  - done.
  - rewrite sweep_nothing; [done|]. apply length_zero_iff_nil. lia.
Qed.

Lemma conversation_users : users (out_store (getConversation env st req)) = users st.
Proof.
  unfold getConversation.
  destruct (Mongo.findById _ _) as [err|[[q other]|]]; [done| |done].
  destruct (Mongo.page_of _ _ _); [done|]. simpl. by destruct (bool_decide _).
Qed.

End Conversation.



Lemma populate_doc st (l : list Message) : pm_doc <$> (Mongo.populate st <$> l) = l.
Proof. rewrite <-list_fmap_compose. by rewrite <-(list_fmap_id l) at 2. Qed.

(** C2: serving the conversation with [p] to [u] marks, in one update,
    every unread message from [p] to [u] as read at the time of the call;
    the unread count of [u] drops by exactly the number of messages so
    marked; and serving it again changes nothing and announces nothing. *)
Theorem conversation_marks_read env st req p :
  ObjectId.cast (cr_userId req) = Some p →
  is_Some (users st !! p) → valid_page req →
  let u := au_id (cr_user req) in
  let st' := out_store (getConversation env st req) in
  let swept := filter (unread_from p u) (messages st) in
  messages st'
    = (λ m, if decide (unread_from p u m) then Mongo.mark_read (now env) m else m)
        <$> messages st
  ∧ (∀ m, m ∈ swept →
       ∃ m', m' ∈ messages st' ∧ m_id m' = m_id m
             ∧ isRead m' = true ∧ readAt m' = Some (now env))
  ∧ (∃ before after,
       out_result (getUnreadCount st (cr_user req)) = ok 200 None (Some before)
       ∧ out_result (getUnreadCount st' (cr_user req)) = ok 200 None (Some after)
       ∧ (after + length swept = before)%nat)
  ∧ (∀ env' req', cr_user req' = cr_user req →
       ObjectId.cast (cr_userId req') = Some p → valid_page req' →
       filter (unread_from p u) (messages st') = []
       ∧ out_store (getConversation env' st' req') = st'
       ∧ out_events (getConversation env' st' req') = []).
Proof.
  intros Hc Hp Hpage u st' swept.
  pose proof (conversation_store env st req p Hc Hp Hpage) as Hst. fold u st' in Hst.
  pose proof (conversation_users env st req) as Hus. fold st' in Hus.
  split_and!.
  - done.
  - intros m [Hm Hin]%list_elem_of_filter. exists (Mongo.mark_read (now env) m).
    split_and!; try done. rewrite Hst. apply list_elem_of_fmap.
    exists m. by rewrite decide_True.
  - exists (unreadCount st u), (unreadCount st' u). split_and!; [done..|].
    unfold unreadCount. rewrite Hst. apply sweep_count.
  - intros env' req' Huser Hpeer Hpage'.
    assert (filter (unread_from p u) (messages st') = []) as Hnone.
    { rewrite Hst. apply sweep_clears. }
    split; [done|].
    unfold getConversation, Mongo.page_of. rewrite Huser.
    rewrite (findById_cast _ _ p), Hus by done. destruct Hp as [other ->]. simpl.
    fold u.
    destruct (Z.ltb_spec ((int_or (cr_page req') 1 - 1) * int_or (cr_limit req') 50) 0)
      as [Hneg|_].
    { unfold valid_page in Hpage'. lia. }
    simpl. by rewrite Hnone.
Qed.


(** ** Listing the conversations *)

Lemma peer_between u p m : involves u m ∧ peer_of u m = p ↔ between u p m.
Proof.
  unfold involves, peer_of, between.
  destruct (decide (sender m = u)) as [Hs|Hs]; split; intros H;
    intuition congruence.
Qed.

Lemma filter_none {A} (P : A → Prop) `{∀ x, Decision (P x)} (l : list A) :
  (∀ x, x ∈ l → ¬ P x) → filter P l = [].
Proof.
  induction l as [|a l IH]; [done|]. intros Hall.
  rewrite filter_cons, decide_False by (apply Hall; left).
  apply IH. intros x Hx. apply Hall. by right.
Qed.

Section Group.
Variable u : ObjectId.t.

Lemma accumulate_fresh m gs :
  peer_of u m ∉ g_id <$> gs → accumulate u m gs = gs ++ [open_group u m].
Proof.
  induction gs as [|g gs IH]; csimpl; [done|].
  intros [Hg Hgs]%not_elem_of_cons.
  rewrite decide_False by done. by rewrite IH.
Qed.

Lemma accumulate_hit m gs :
  NoDup (g_id <$> gs) → peer_of u m ∈ g_id <$> gs →
  accumulate u m gs
  = (λ g, if decide (g_id g = peer_of u m) then join_group u m g else g) <$> gs.
Proof.
  induction gs as [|g gs IH]; csimpl.
  - intros _ Hin. by apply elem_of_nil in Hin.
  - intros [Hg Hgs]%NoDup_cons Hin. destruct (decide (g_id g = peer_of u m)) as [Heq|Hne].
    + f_equal. rewrite <-(list_fmap_id gs) at 1. apply list_fmap_ext.
      intros i g' Hg'. rewrite decide_False; [done|].
      intros Heq'. apply Hg. rewrite Heq, <-Heq'.
      apply list_elem_of_fmap_2. by eapply list_elem_of_lookup_2.
    + f_equal. apply IH; [done|]. by apply elem_of_cons in Hin as [|].
Qed.

Lemma summarises_other l m g :
  g_id g ≠ peer_of u m → summarises u l g → summarises u (l ++ [m]) g.
Proof.
  intros Hne (Hhd & Hun & Htot). unfold summarises.
  rewrite !filter_app, !filter_cons, !filter_nil.
  rewrite !decide_False by (intuition congruence). by rewrite !app_nil_r.
Qed.

Lemma summarises_join l m g :
  g_id g = peer_of u m → summarises u l g →
  summarises u (l ++ [m]) (join_group u m g).
Proof.
  intros Heq (Hhd & Hun & Htot). unfold summarises. simpl.
  rewrite !filter_app, !filter_cons, !filter_nil, !length_app.
  rewrite (decide_True (P := peer_of u m = g_id g)) by done.
  split_and!.
  - destruct (filter _ l); by simplify_eq/=.
  - rewrite Hun. f_equal. unfold unread_inc.
    destruct (decide (unread_for u m)).
    + by rewrite decide_True.
    + by rewrite decide_False by tauto.
  - by rewrite Htot.
Qed.

Lemma summarises_open l m :
  (∀ m', m' ∈ l → peer_of u m' ≠ peer_of u m) →
  summarises u (l ++ [m]) (open_group u m).
Proof.
  intros Hnew. unfold summarises. simpl.
  assert (filter (λ m', peer_of u m' = peer_of u m) l = []) as Hnil.
  { apply filter_none. intros m' Hm'. by apply Hnew. }
  assert (filter (λ m', peer_of u m' = peer_of u m ∧ unread_for u m') l = [])
    as Hnil'.
  { apply filter_none. intros m' Hm' [Hp _]. by apply (Hnew m'). }
  rewrite !filter_app, Hnil, Hnil', !filter_cons, !filter_nil.
  rewrite (decide_True (P := peer_of u m = peer_of u m)) by done.
  split_and!; [done| |done]. unfold unread_inc.
  destruct (decide (unread_for u m)).
  - by rewrite decide_True.
  - by rewrite decide_False by tauto.
Qed.

End Group.

Section Grouping.
Variable u : ObjectId.t.

Lemma accumulate_grouped gs l m :
  grouped u gs l → grouped u (accumulate u m gs) (l ++ [m]).
Proof.
  intros (Hnd & Hkeys & Hsum).
  destruct (decide (peer_of u m ∈ g_id <$> gs)) as [Hin|Hout].
  - rewrite accumulate_hit by done.
    assert (g_id <$> ((λ g, if decide (g_id g = peer_of u m)
                            then join_group u m g else g) <$> gs)
            = g_id <$> gs) as Hids.
    { rewrite <-list_fmap_compose. apply list_fmap_ext.
      intros i g _. simpl. by destruct (decide _). }
    split_and!.
    + by rewrite Hids.
    + intros k. rewrite Hids, Hkeys. split.
      * intros (m' & Hm' & Hk). exists m'. split; [|done].
        apply elem_of_app. by left.
      * intros (m' & [Hm'|Hm']%elem_of_app & Hk).
        -- by exists m'.
        -- apply list_elem_of_singleton in Hm'. subst m'. apply Hkeys.
           by rewrite <-Hk.
    + apply Forall_fmap, (Forall_impl _ _ _ Hsum). intros g Hg. simpl.
      destruct (decide (g_id g = peer_of u m)).
      * by apply summarises_join.
      * by apply summarises_other.
  - rewrite accumulate_fresh by done. unfold grouped. rewrite fmap_app. csimpl.
    split_and!.
    + apply NoDup_app. split_and!; [done| |apply NoDup_singleton].
      intros k Hk ->%list_elem_of_singleton. done.
    + intros k. rewrite elem_of_app, list_elem_of_singleton, Hkeys. split.
      * intros [(m' & Hm' & Hk)| ->].
        -- exists m'. split; [|done]. apply elem_of_app. by left.
        -- exists m. split; [|done]. apply elem_of_app. right. left.
      * intros (m' & [Hm'|Hm']%elem_of_app & Hk).
        -- left. by exists m'.
        -- apply list_elem_of_singleton in Hm'. subst m'. by right.
    + apply Forall_app. split.
      * rewrite Forall_forall in Hsum. apply Forall_forall. intros g Hg.
        apply summarises_other; [|by apply Hsum].
        intros Heq. apply Hout. rewrite <-Heq. by apply list_elem_of_fmap_2.
      * apply Forall_singleton, summarises_open. intros m' Hm' Heq.
        apply Hout, Hkeys. by exists m'.
Qed.

Lemma foldl_grouped l : ∀ gs l0,
  grouped u gs l0 →
  grouped u (foldl (λ gs m, accumulate u m gs) gs l) (l0 ++ l).
Proof.
  induction l as [|m l IH]; intros gs l0 Hgs; simpl.
  - by rewrite app_nil_r.
  - rewrite cons_middle, app_assoc. by apply IH, accumulate_grouped.
Qed.

Lemma group_stage_grouped l : grouped u (group_stage u l) l.
Proof.
  apply (foldl_grouped l [] []). split_and!.
  - constructor.
  - intros k. split.
    + intros Hk. by apply elem_of_nil in Hk.
    + intros (m & Hm & _). by apply elem_of_nil in Hm.
  - constructor.
Qed.

End Grouping.

Lemma StronglySorted_filter {A} (R : relation A) (P : A → Prop)
    `{∀ x, Decision (P x)} (l : list A) :
  StronglySorted R l → StronglySorted R (filter P l).
Proof.
  induction 1 as [|x l Hl IH Hx]; [constructor|].
  rewrite filter_cons. destruct (decide (P x)); [|done].
  constructor; [done|]. rewrite Forall_forall in Hx. apply Forall_forall.
  intros y [_ Hy]%list_elem_of_filter. by apply Hx.
Qed.

Lemma head_newest (l : list Message) x :
  StronglySorted Mongo.newer_first l → head l = Some x →
  ∀ m, m ∈ l → createdAt m ≤ createdAt x.
Proof.
  destruct 1 as [|a l Hl Ha]; simpl; [done|]. intros [= ->] m.
  intros [->|Hm]%elem_of_cons; [done|].
  rewrite Forall_forall in Ha. by apply Ha.
Qed.

Lemma rows_ids st (gs : list Group) :
  c_id <$> omap (lookup_unwind st) gs
  = filter (λ k, is_Some (users st !! k)) (g_id <$> gs).
Proof.
  induction gs as [|g gs IH]; csimpl; [done|]. rewrite filter_cons.
  unfold lookup_unwind at 1. destruct (users st !! g_id g) as [usr|] eqn:Hu; simpl.
  - f_equal. exact IH.
  - exact IH.
Qed.

Global Instance last_newer_first_trans : Transitive last_newer_first.
Proof. unfold last_newer_first. intros a b c. lia. Qed.

Global Instance last_newer_first_total : Total last_newer_first.
Proof. unfold last_newer_first. intros a b. lia. Qed.

Section Aggregate.
Variables (st : Store) (u : ObjectId.t).

Let matched := filter (involves u) (messages st).
Let sorted := Mongo.sort_desc matched.
Let groups := group_stage u sorted.

Lemma sorted_elem m : m ∈ sorted ↔ involves u m ∧ m ∈ messages st.
Proof.
  unfold sorted. rewrite sort_desc_perm. unfold matched.
  by rewrite list_elem_of_filter.
Qed.

(** Counting in the sorted [$match] output is counting in the collection. *)
Lemma sorted_count (P Q : Message → Prop)
    `{∀ m, Decision (P m)} `{∀ m, Decision (Q m)} :
  (∀ m, P m ∧ involves u m ↔ Q m) →
  length (filter P sorted) = length (filter Q (messages st)).
Proof.
  intros HPQ. unfold sorted. rewrite sort_desc_perm. unfold matched.
  rewrite list_filter_filter. f_equal. by apply list_filter_iff.
Qed.

Lemma group_keys k :
  k ∈ g_id <$> groups ↔ ∃ m, m ∈ messages st ∧ between u k m.
Proof.
  destruct (group_stage_grouped u sorted) as (_ & Hkeys & _).
  fold groups in Hkeys. rewrite Hkeys. split.
  - intros (m & [Hinv Hm]%sorted_elem & Hk). exists m. split; [done|].
    by apply peer_between.
  - intros (m & Hm & [Hinv Hk]%peer_between). exists m. split; [|done].
    by apply sorted_elem.
Qed.

Lemma group_summary g :
  g ∈ groups →
  g_lastMessage g ∈ messages st
  ∧ between u (g_id g) (g_lastMessage g)
  ∧ (∀ m, m ∈ messages st → between u (g_id g) m →
       createdAt m ≤ createdAt (g_lastMessage g))
  ∧ g_unreadCount g
    = length (filter (λ m, between u (g_id g) m ∧ unread_for u m) (messages st))
  ∧ g_totalMessages g = length (filter (between u (g_id g)) (messages st)).
Proof.
  intros Hg. destruct (group_stage_grouped u sorted) as (_ & _ & Hsum).
  fold groups in Hsum. rewrite Forall_forall in Hsum.
  destruct (Hsum g Hg) as (Hhd & Hun & Htot).
  pose proof (head_filter_Some _ _ _ Hhd) as [[Hinv Hlast]%sorted_elem Hpeer].
  split_and!.
  - done.
  - by apply peer_between.
  - intros m Hm [Hinv' Hpeer']%peer_between.
    apply (head_newest (filter (λ m, peer_of u m = g_id g) sorted)); [|done|].
    + apply StronglySorted_filter, sort_desc_sorted.
    + apply list_elem_of_filter. split; [done|]. by apply sorted_elem.
  - rewrite Hun. apply sorted_count. intros m.
    rewrite <-(peer_between u (g_id g) m). tauto.
  - rewrite Htot. apply sorted_count. intros m.
    rewrite <-(peer_between u (g_id g) m). tauto.
Qed.

End Aggregate.

(** C1 as amended: the list has exactly one row for each peer who has a
    message with [u] in the store and a record in the user directory; the
    row's lastMessage is a message of the pair with the greatest createdAt,
    its unreadCount is the number of messages of the pair addressed to [u]
    and not read, and the rows come sorted by their lastMessage's createdAt,
    descending. *)
Theorem conversations_list st user :
  let u := au_id user in
  ∃ rows,
    out_result (getConversations st user) = ok 200 None (Some rows)
    ∧ NoDup (c_id <$> rows)
    ∧ (∀ p, p ∈ c_id <$> rows ↔
         (∃ m, m ∈ messages st ∧ between u p m) ∧ is_Some (users st !! p))
    ∧ (∀ r, r ∈ rows →
         c_lastMessage r ∈ messages st
         ∧ between u (c_id r) (c_lastMessage r)
         ∧ (∀ m, m ∈ messages st → between u (c_id r) m →
              createdAt m ≤ createdAt (c_lastMessage r))
         ∧ c_unreadCount r
           = length (filter (λ m, between u (c_id r) m ∧ unread_for u m)
                       (messages st))
         ∧ c_totalMessages r
           = length (filter (between u (c_id r)) (messages st)))
    ∧ StronglySorted last_newer_first rows.
Proof.
  intros u. exists (aggregate st u). unfold aggregate.
  set (groups := group_stage u (Mongo.sort_desc (filter (involves u) (messages st)))).
  split_and!.
  - done.
  - rewrite merge_sort_Permutation, rows_ids. apply NoDup_filter.
    by destruct (group_stage_grouped u
                   (Mongo.sort_desc (filter (involves u) (messages st)))).
  - intros p. rewrite merge_sort_Permutation, rows_ids, list_elem_of_filter.
    unfold groups. rewrite group_keys. tauto.
  - intros r. rewrite merge_sort_Permutation, list_elem_of_omap.
    intros (g & Hg & Hr). unfold lookup_unwind in Hr.
    destruct (users st !! g_id g); simplify_eq/=.
    by apply group_summary.
  - apply StronglySorted_merge_sort; apply _.
Qed.

(** * Instances on sample data *)

Lemma send_without_receiver_witness :
  sr_receiver (Fixture.text_request Fixture.alice None (Some "hi")) = None
  ∧ sendMessage Fixture.env Fixture.quiet
      (Fixture.text_request Fixture.alice None (Some "hi"))
    = answer Fixture.quiet (fail 400 msg_receiver_required)
  ∧ ObjectId.cast Sample.stranger = Some (Sample.stranger ↾ I)
  ∧ users Fixture.quiet !! (Sample.stranger ↾ I : ObjectId.t) = None
  ∧ sendMessage Fixture.env Fixture.quiet
      (Fixture.text_request Fixture.alice (Some Sample.stranger) (Some "hi"))
    = answer Fixture.quiet (fail 404 msg_receiver_not_found).
Proof.
  assert (ObjectId.cast Sample.stranger = Some (Sample.stranger ↾ I)) as Hc.
  { vm_compute. reflexivity. }
  assert (users Fixture.quiet !! (Sample.stranger ↾ I : ObjectId.t) = None) as Hnone.
  { vm_compute. reflexivity. }
  destruct (send_without_receiver Fixture.env Fixture.quiet
              (Fixture.text_request Fixture.alice None (Some "hi")) eq_refl)
    as (Hreq & _ & Hmiss).
  split_and!; [reflexivity|exact Hreq|exact Hc|exact Hnone|].
  exact (proj1 (Hmiss (Fixture.text_request Fixture.alice (Some Sample.stranger)
                         (Some "hi")) _ _ eq_refl Hc Hnone)).
Defined.

Lemma alice_authenticated : authenticated Fixture.quiet Fixture.alice.
Proof. exists (Fixture.member "alice"). vm_compute. reflexivity. Defined.

(** alice writes to her own identifier in upper case: the message is
    accepted and stored, from alice to alice. *)
Lemma send_to_self_by_spelling_witness :
  authenticated Fixture.quiet (sr_user Sample.to_herself)
  ∧ sr_receiver Sample.to_herself = Some Fixture.hexA_upper
  ∧ ObjectId.cast Fixture.hexA_upper = Some (au_id (sr_user Sample.to_herself))
  ∧ Fixture.hexA_upper ≠ user_id (sr_user Sample.to_herself)
  ∧ ∃ m,
      out_result (sendMessage Fixture.env Fixture.quiet Sample.to_herself)
      = ok 201 (Some "Message sent successfully")
          (Some (Mongo.populate
                   (out_store (sendMessage Fixture.env Fixture.quiet Sample.to_herself))
                   m))
      ∧ messages (out_store (sendMessage Fixture.env Fixture.quiet Sample.to_herself))
        = messages Fixture.quiet ++ [m]
      ∧ sender m = Fixture.idA ∧ receiver m = Fixture.idA.
Proof.
  assert (ObjectId.cast Fixture.hexA_upper = Some (au_id (sr_user Sample.to_herself)))
    as Hc.
  { vm_compute. reflexivity. }
  assert (Fixture.hexA_upper ≠ user_id (sr_user Sample.to_herself)) as Hne.
  { vm_compute. discriminate. }
  split_and!; [exact alice_authenticated|reflexivity|exact Hc|exact Hne|].
  apply (send_to_self_by_spelling Fixture.env Fixture.quiet Sample.to_herself
           Fixture.hexA_upper alice_authenticated eq_refl Hc);
    [exact Hne|reflexivity|reflexivity| |].
  - vm_compute. discriminate.
  - vm_compute. lia.
Defined.

(** The message of that request as it is stored. *)
Example send_to_herself_sample :
  (λ m, (ObjectId.toString (sender m), ObjectId.toString (receiver m), content m))
    <$> messages (out_store (sendMessage Fixture.env Fixture.quiet Sample.to_herself))
  = [(Fixture.hexA, Fixture.hexA, "note to self")]
  ∧ status (sent (out_result (sendMessage Fixture.env Fixture.quiet Sample.to_herself)))
    = 201.
Proof. split; vm_compute; reflexivity. Qed.

Lemma bob_deliverable req :
  sr_user req = Fixture.alice → sr_receiver req = Some Fixture.hexB →
  deliverable Fixture.quiet req.
Proof.
  intros Hu Hr. exists Fixture.hexB, Fixture.idB. rewrite Hu. split_and!.
  - exact Hr.
  - vm_compute. reflexivity.
  - exists (Fixture.member "bob"). vm_compute. reflexivity.
  - vm_compute. discriminate.
Defined.

Lemma send_refused_attachment_witness :
  Exists refused (uploadedFiles (Fixture.upload_request [Fixture.picture; Fixture.archive]))
  ∧ deliverable Fixture.quiet (Fixture.upload_request [Fixture.picture; Fixture.archive])
  ∧ succeeded (out_result (sendMessage Fixture.env Fixture.quiet
                 (Fixture.upload_request [Fixture.picture; Fixture.archive])))
    = false
  ∧ out_store (sendMessage Fixture.env Fixture.quiet
                 (Fixture.upload_request [Fixture.picture; Fixture.archive]))
    = Fixture.quiet
  ∧ error_class (out_result (sendMessage Fixture.env Fixture.quiet
                   (Fixture.upload_request [Fixture.picture; Fixture.archive])))
    = Some ValidationError.
Proof.
  assert (Exists refused
            (uploadedFiles (Fixture.upload_request [Fixture.picture; Fixture.archive])))
    as Hex.
  { apply (bool_decide_unpack _). vm_compute. exact I. }
  assert (deliverable Fixture.quiet
            (Fixture.upload_request [Fixture.picture; Fixture.archive])) as Hd.
  { apply bob_deliverable; reflexivity. }
  destruct (send_refused_attachment Fixture.env Fixture.quiet
              (Fixture.upload_request [Fixture.picture; Fixture.archive]) Hex)
    as (Hfail & Hstore & Hclass).
  split_and!; [exact Hex|exact Hd|exact Hfail|exact Hstore|exact (Hclass Hd)].
Defined.

(** The counterexample to C3 as stated: a file of a forbidden type sent to
    an identifier nobody has is answered 404, a NotFound, and sent to
    oneself it is answered 400 'Cannot send message to yourself', an
    InvalidOperation; the files are not looked at. *)
Lemma refused_attachment_other_failures :
  Exists refused
    (uploadedFiles (Fixture.upload Fixture.alice Sample.stranger [Fixture.archive]))
  ∧ out_result (sendMessage Fixture.env Fixture.quiet
                  (Fixture.upload Fixture.alice Sample.stranger [Fixture.archive]))
    = fail 404 msg_receiver_not_found
  ∧ error_class (out_result (sendMessage Fixture.env Fixture.quiet
                   (Fixture.upload Fixture.alice Sample.stranger [Fixture.archive])))
    = Some NotFound
  ∧ Exists refused
      (uploadedFiles (Fixture.upload Fixture.alice Fixture.hexA [Fixture.archive]))
  ∧ out_result (sendMessage Fixture.env Fixture.quiet
                  (Fixture.upload Fixture.alice Fixture.hexA [Fixture.archive]))
    = fail 400 msg_self
  ∧ error_class (out_result (sendMessage Fixture.env Fixture.quiet
                   (Fixture.upload Fixture.alice Fixture.hexA [Fixture.archive])))
    = Some InvalidOperation.
Proof.
  split_and!; try (vm_compute; reflexivity);
    apply (bool_decide_unpack _); vm_compute; exact I.
Qed.

(** Blank content, and content too long, each sent by alice to bob. *)
Lemma send_invalid_content_witness :
  (Js.trim (raw_content
      (Fixture.text_request Fixture.alice (Some Fixture.hexB) (Some "   "))) = ""
   ∧ deliverable Fixture.quiet
       (Fixture.text_request Fixture.alice (Some Fixture.hexB) (Some "   "))
   ∧ out_store (sendMessage Fixture.env Fixture.quiet
                  (Fixture.text_request Fixture.alice (Some Fixture.hexB) (Some "   ")))
     = Fixture.quiet
   ∧ sendMessage Fixture.env Fixture.quiet
       (Fixture.text_request Fixture.alice (Some Fixture.hexB) (Some "   "))
     = answer Fixture.quiet (fail 400 msg_content_required))
  ∧ ((content_maxlength
      < String.length (Js.trim (raw_content
          (Fixture.text_request Fixture.alice (Some Fixture.hexB)
             (Some Fixture.long)))))%nat
     ∧ succeeded (out_result (sendMessage Fixture.env Fixture.quiet
                     (Fixture.text_request Fixture.alice (Some Fixture.hexB)
                        (Some Fixture.long))))
       = false
     ∧ out_store (sendMessage Fixture.env Fixture.quiet
                    (Fixture.text_request Fixture.alice (Some Fixture.hexB)
                       (Some Fixture.long)))
       = Fixture.quiet).
Proof.
  split.
  - assert (Js.trim (raw_content
              (Fixture.text_request Fixture.alice (Some Fixture.hexB) (Some "   "))) = "")
      as Hblank.
    { vm_compute. reflexivity. }
    assert (deliverable Fixture.quiet
              (Fixture.text_request Fixture.alice (Some Fixture.hexB) (Some "   ")))
      as Hd.
    { apply bob_deliverable; reflexivity. }
    destruct (send_invalid_content Fixture.env Fixture.quiet
                (Fixture.text_request Fixture.alice (Some Fixture.hexB) (Some "   "))
                (or_introl Hblank)) as (_ & Hstore & Hans).
    split_and!; [exact Hblank|exact Hd|exact Hstore|exact (proj1 (Hans Hd Hblank))].
  - assert (content_maxlength
            < String.length (Js.trim (raw_content
                (Fixture.text_request Fixture.alice (Some Fixture.hexB)
                   (Some Fixture.long)))))%nat as Hlong.
    { apply Nat.ltb_lt. vm_compute. reflexivity. }
    destruct (send_invalid_content Fixture.env Fixture.quiet
                (Fixture.text_request Fixture.alice (Some Fixture.hexB)
                   (Some Fixture.long))
                (or_intror Hlong)) as (Hfail & Hstore & _).
    split_and!; [exact Hlong|exact Hfail|exact Hstore].
Defined.

(** The counterexample to C5 as stated: 1001 characters of content, of
    which the last thousand are spaces, are accepted, and the message is
    persisted with content ['a']; blank content sent to an identifier
    nobody has is answered 404, a NotFound; and 1001 letters sent to bob
    make the handler throw, which the caller sees as a 500. *)
Lemma send_padded_content_accepted :
  ((1000 < String.length Fixture.padded)%nat
   ∧ succeeded (out_result (sendMessage Fixture.env Fixture.quiet
         (Fixture.text_request Fixture.alice (Some Fixture.hexB) (Some Fixture.padded))))
     = true
   ∧ content <$> messages (out_store (sendMessage Fixture.env Fixture.quiet
         (Fixture.text_request Fixture.alice (Some Fixture.hexB) (Some Fixture.padded))))
     = ["a"])
  ∧ error_class (out_result (sendMessage Fixture.env Fixture.quiet
        (Fixture.text_request Fixture.alice (Some Sample.stranger) (Some "   "))))
    = Some NotFound
  ∧ ((1000 < String.length (Js.trim Fixture.long))%nat
     ∧ out_result (sendMessage Fixture.env Fixture.quiet
           (Fixture.text_request Fixture.alice (Some Fixture.hexB) (Some Fixture.long)))
       = Threw (ValidationFailed ["content"])
     ∧ status (sent (out_result (sendMessage Fixture.env Fixture.quiet
           (Fixture.text_request Fixture.alice (Some Fixture.hexB) (Some Fixture.long)))))
       = 500
     ∧ error_class (out_result (sendMessage Fixture.env Fixture.quiet
           (Fixture.text_request Fixture.alice (Some Fixture.hexB) (Some Fixture.long))))
       = Some ServerError).
Proof.
  split_and!; try (vm_compute; reflexivity); apply Nat.ltb_lt; vm_compute; reflexivity.
Qed.

Lemma send_message_type_witness :
  succeeded (out_result (sendMessage Fixture.env Fixture.quiet
               (Fixture.upload_request [Fixture.picture]))) = true
  ∧ ∃ m, messages (out_store (sendMessage Fixture.env Fixture.quiet
                     (Fixture.upload_request [Fixture.picture]))) = [m]
         ∧ messageType m = "file".
Proof.
  assert (succeeded (out_result (sendMessage Fixture.env Fixture.quiet
            (Fixture.upload_request [Fixture.picture]))) = true) as Hok.
  { vm_compute. reflexivity. }
  split; [exact Hok|].
  destruct (send_message_type Fixture.env Fixture.quiet
              (Fixture.upload_request [Fixture.picture]) Hok) as (m & Hm & _ & Hty).
  exists m. split; [exact Hm|exact Hty].
Defined.

Lemma chat_unique : NoDup (m_id <$> messages Fixture.chat).
Proof. apply (bool_decide_unpack _). vm_compute. exact I. Defined.

Lemma delete_only_by_sender_witness :
  ObjectId.cast (ObjectId.toString Fixture.m1) = Some Fixture.m1
  ∧ NoDup (m_id <$> messages Fixture.chat)
  ∧ deleteMessage Fixture.env Fixture.chat Fixture.bob (ObjectId.toString Fixture.m1)
    = answer Fixture.chat (fail 404 msg_delete_refused)
  ∧ messages (out_store (deleteMessage Fixture.env Fixture.chat Fixture.alice
                           (ObjectId.toString Fixture.m1)))
    = [Fixture.note Fixture.m2 Fixture.idB Fixture.idA 20 false;
       Fixture.note Fixture.m3 Fixture.idB Fixture.idA 30 false].
Proof.
  assert (ObjectId.cast (ObjectId.toString Fixture.m1) = Some Fixture.m1) as Hc.
  { vm_compute. reflexivity. }
  split_and!; [exact Hc|exact chat_unique| |].
  - apply (delete_only_by_sender Fixture.env Fixture.chat Fixture.bob
             (ObjectId.toString Fixture.m1) Fixture.m1 Hc chat_unique).
    intros m Hm Hid Hs. simpl in Hm.
    repeat (apply elem_of_cons in Hm as [->|Hm]; [discriminate|]).
    by apply elem_of_nil in Hm.
  - destruct (delete_only_by_sender Fixture.env Fixture.chat Fixture.alice
                (ObjectId.toString Fixture.m1) Fixture.m1 Hc chat_unique)
      as (_ & Hdel & _).
    destruct (Hdel (Fixture.note Fixture.m1 Fixture.idA Fixture.idB 10 true))
      as [_ Hst]; [left|reflexivity|reflexivity|].
    rewrite Hst. vm_compute. reflexivity.
Defined.

Lemma bob_cast : ObjectId.cast Fixture.hexB = Some Fixture.idB.
Proof. vm_compute. reflexivity. Defined.

Lemma bob_registered : is_Some (users Fixture.chat !! Fixture.idB).
Proof. exists (Fixture.member "bob"). vm_compute. reflexivity. Defined.

Lemma open_chat_valid : valid_page Fixture.open_chat.
Proof. unfold valid_page. simpl. lia. Defined.

Lemma conversation_marks_read_witness :
  ObjectId.cast (cr_userId Fixture.open_chat) = Some Fixture.idB
  ∧ is_Some (users Fixture.chat !! Fixture.idB)
  ∧ valid_page Fixture.open_chat
  ∧ isRead <$> messages (out_store (getConversation Fixture.env Fixture.chat
                                      Fixture.open_chat))
    = [true; true; true]
  ∧ out_result (getUnreadCount Fixture.chat Fixture.alice) = ok 200 None (Some 2%nat)
  ∧ out_result (getUnreadCount
                  (out_store (getConversation Fixture.env Fixture.chat Fixture.open_chat))
                  Fixture.alice) = ok 200 None (Some 0%nat).
Proof.
  destruct (conversation_marks_read Fixture.env Fixture.chat Fixture.open_chat
              Fixture.idB bob_cast bob_registered open_chat_valid)
    as (Hst & _ & _ & _).
  split_and!; [exact bob_cast|exact bob_registered|exact open_chat_valid| | |].
  - rewrite Hst. vm_compute. reflexivity.
  - vm_compute. reflexivity.
  - unfold getUnreadCount, unreadCount. rewrite Hst. vm_compute. reflexivity.
Defined.



(** The counterexample to C1 as stated: bob has exchanged a message with
    alice, and alice's list has no row for him, because his account is
    gone. *)
Lemma conversations_miss_deleted_peer :
  (∃ m, m ∈ messages Fixture.orphaned ∧ between Fixture.idA Fixture.idB m)
  ∧ out_result (getConversations Fixture.orphaned Fixture.alice)
    = ok 200 None (Some []).
Proof.
  split.
  - exists (Fixture.note Fixture.m1 Fixture.idB Fixture.idA 10 false).
    split; [left|]. right. by split.
  - vm_compute. reflexivity.
Qed.

(** The example of the design: alice writes 'hi' to bob, bob answers
    'hello'; alice's list has one row, for bob, with that answer and one
    unread message; after she opens the conversation nothing is unread. *)
Example design_example :
  let s1 := out_store (sendMessage Fixture.env Fixture.quiet
              (Fixture.text_request Fixture.alice (Some Fixture.hexB) (Some "hi"))) in
  let s2 := out_store (sendMessage Fixture.later s1
              (Fixture.text_request Fixture.bob (Some Fixture.hexA) (Some "hello"))) in
  let s3 := out_store (getConversation Fixture.later s2 Fixture.open_chat) in
  (λ r, (c_id r, content (c_lastMessage r), c_unreadCount r)) <$> aggregate s2 Fixture.idA
    = [(Fixture.idB, "hello", 1%nat)]
  ∧ unreadCount s3 Fixture.idA = 0%nat.
Proof. split; vm_compute; reflexivity. Qed.

(** * More of the messaging surface *)

(** ** What a successful send leaves *)

Lemma stage_accepts env uid files : ∀ i acc atts,
  stage env uid i files acc = (atts, None) →
  ∃ new, atts = acc ++ new ∧ Forall2 describes new files ∧ Forall accepted files.
Proof.
  induction files as [|f files IH]; intros i acc atts; simpl.
  - intros [= <-]. exists []. by rewrite app_nil_r.
  - destruct (bool_decide_reflect (f_mimetype f ∈ allowedTypes)) as [Hty|Hty];
      simpl; [|done].
    destruct (Z.ltb_spec max_file_size (f_size f)) as [Hsz|Hsz]; [done|].
    intros (new & -> & Hnew & Hall)%IH. eexists (_ :: new). split_and!.
    + by rewrite <-app_assoc.
    + by constructor.
    + by constructor.
Qed.

Lemma stage_refusal env uid files : ∀ i acc staged msg,
  stage env uid i files acc = (staged, Some msg) →
  ∃ good bad rest,
    files = good ++ bad :: rest ∧ Forall accepted good ∧ refused bad
    ∧ length staged = (length acc + length good)%nat.
Proof.
  induction files as [|f files IH]; intros i acc staged msg; simpl; [done|].
  destruct (bool_decide_reflect (f_mimetype f ∈ allowedTypes)) as [Hty|Hty]; simpl.
  - destruct (Z.ltb_spec max_file_size (f_size f)) as [Hsz|Hsz].
    + intros [= <- _]. exists [], f, files. split_and!; [done|constructor|by right|simpl; lia].
    + intros (good & bad & rest & -> & Hgood & Hbad & Hlen)%IH.
      exists (f :: good), bad, rest. split_and!; [done|by constructor|done|].
      rewrite Hlen, length_app. simpl. lia.
  - intros [= <- _]. exists [], f, files. split_and!; [done|constructor|by left|simpl; lia].
Qed.

Lemma valid_paths c t :
  invalid_paths c t = [] →
  Js.trim c ≠ "" ∧ (String.length (Js.trim c) ≤ content_maxlength)%nat
  ∧ t ∈ messageTypes.
Proof.
  unfold invalid_paths.
  destruct (bool_decide_reflect (Js.trim c = "")); [done|].
  destruct (Nat.ltb_spec content_maxlength (String.length (Js.trim c))); [done|].
  destruct (bool_decide_reflect (t ∈ messageTypes)); [|done]. done.
Qed.

(** A send that succeeds went through every guard and appended one
    message. *)
Lemma send_success env st req :
  succeeded (out_result (sendMessage env st req)) = true →
  ∃ r p c atts t,
    sr_receiver req = Some r ∧ ObjectId.cast r = Some p
    ∧ is_Some (users st !! p) ∧ r ≠ user_id (sr_user req)
    ∧ sr_content req = Some c ∧ Js.trim c ≠ ""
    ∧ stage env (user_id (sr_user req)) 0 (uploadedFiles req) [] = (atts, None)
    ∧ invalid_paths (Js.trim c) t = [] ∧ (atts ≠ [] → t = "file")
    ∧ let m := {| m_id := fresh_id env; sender := au_id (sr_user req);
                  receiver := p; content := Js.trim (Js.trim c);
                  messageType := t; attachments := atts; isRead := false;
                  readAt := None; createdAt := now env |} in
      let st' := with_messages st (messages st ++ [m]) in
      sendMessage env st req
      = {| out_store := st';
           out_events :=
             if io env then
               [ {| room := r; name := "receive_message";
                    payload := MessagePayload (Mongo.populate st' m) "new_message" |};
                 {| room := user_id (sr_user req); name := "message_sent";
                    payload := MessagePayload (Mongo.populate st' m) "message_sent" |};
                 {| room := r; name := "conversation_updated";
                    payload := ConversationUpdated (user_id (sr_user req))
                                 (Mongo.populate st' m) |};
                 {| room := user_id (sr_user req); name := "conversation_updated";
                    payload := ConversationUpdated r (Mongo.populate st' m) |} ]
             else [];
           out_files := a_filename <$> atts;
           out_result :=
             ok 201 (Some "Message sent successfully")
               (Some (Mongo.populate st' m)) |}.
Proof.
  unfold sendMessage, Message_create. rewrite !or_self, !if_same.
  destruct (Js.truthy (sr_receiver req)) eqn:Htr; [|done]. simpl.
  apply truthy_Some in Htr as (r & Hr & Hne). rewrite Hr. simpl.
  unfold Mongo.findById. destruct (ObjectId.cast r) as [p|] eqn:Hc; [|done].
  destruct (users st !! p) as [usr|] eqn:Hu; [|done]. simpl.
  destruct (bool_decide_reflect (r = user_id (sr_user req))) as [|Hself]; [done|].
  destruct (_ || _) eqn:Hblank; [done|].
  destruct (sr_content req) as [c|] eqn:Hcontent; [|done]. simpl in *.
  apply orb_false_iff in Hblank as [_ Hblank%bool_decide_eq_false].
  destruct (stage _ _ _ _ _) as [atts [msg|]] eqn:Hst; [done|].
  rewrite cast_user_id.
  destruct (invalid_paths _ _) eqn:Hp; [|done]. intros _.
  eexists r, p, c, atts, _. split_and!; try done.
  intros Hatts. rewrite bool_decide_eq_true_2; [done|].
  destruct atts; simpl; [done|lia].
Qed.

Lemma unread_after_append st m x :
  unreadCount (with_messages st (messages st ++ [m])) x
  = (unreadCount st x + if bool_decide (unread_for x m) then 1 else 0)%nat.
Proof.
  unfold unreadCount. simpl. rewrite filter_app, length_app, filter_cons, filter_nil.
  destruct (decide (unread_for x m)).
  - by rewrite bool_decide_eq_true_2.
  - by rewrite bool_decide_eq_false_2.
Qed.

(** What the other properties need of a successful send. *)
Lemma send_appended env st req :
  succeeded (out_result (sendMessage env st req)) = true →
  ∃ m,
    messages (out_store (sendMessage env st req)) = messages st ++ [m]
    ∧ users (out_store (sendMessage env st req)) = users st
    ∧ m_id m = fresh_id env ∧ sender m = au_id (sr_user req)
    ∧ content m = Js.trim (raw_content req).
Proof.
  intros (r & p & c & atts & t & _ & _ & _ & _ & Hc & _ & _ & _ & _ & Heq)%send_success.
  rewrite Heq. eexists. split_and!; try done.
  simpl. unfold raw_content. rewrite Hc. simpl. apply trim_idemp.
Qed.

(** X1: a successful send appends exactly one message, from the caller to
    the user the receiver field is the identifier of, with the trimmed
    content, unread, stamped with the time and the identifier of the call;
    the receiver's unread count grows by one and nobody else's changes. *)
Theorem send_persists env st req :
  succeeded (out_result (sendMessage env st req)) = true →
  ∃ m,
    messages (out_store (sendMessage env st req)) = messages st ++ [m]
    ∧ users (out_store (sendMessage env st req)) = users st
    ∧ m_id m = fresh_id env ∧ createdAt m = now env
    ∧ sender m = au_id (sr_user req)
    ∧ (∃ r, sr_receiver req = Some r ∧ ObjectId.cast r = Some (receiver m))
    ∧ content m = Js.trim (raw_content req)
    ∧ isRead m = false ∧ readAt m = None
    ∧ ∀ x, unreadCount (out_store (sendMessage env st req)) x
           = (unreadCount st x
              + if bool_decide (x = receiver m) then 1 else 0)%nat.
Proof.
  intros (r & p & c & atts & t & Hr & Hp & _ & _ & Hc & _ & _ & _ & _ & Heq)%send_success.
  rewrite Heq. eexists. split_and!; try done.
  - by exists r.
  - simpl. unfold raw_content. rewrite Hc. simpl. apply trim_idemp.
  - intros x. simpl. rewrite (unread_after_append st). f_equal.
    unfold unread_for. simpl.
    destruct (bool_decide_reflect (x = p)) as [->|Hx].
    + by rewrite bool_decide_eq_true_2.
    + rewrite bool_decide_eq_false_2; [done|]. by intros [-> _].
Qed.

(** X2: the attachments of the message a successful send persists are the
    descriptors of the uploaded files, one for one and in their order, with
    the original name, size and type of each and a URL under [/uploads/];
    every one of these files passed the allow-list and the size cap, and
    these are exactly the files written to the uploads directory. *)
Theorem send_attachments env st req :
  succeeded (out_result (sendMessage env st req)) = true →
  ∃ m,
    messages (out_store (sendMessage env st req)) = messages st ++ [m]
    ∧ Forall2 describes (attachments m) (uploadedFiles req)
    ∧ Forall accepted (uploadedFiles req)
    ∧ out_files (sendMessage env st req) = a_filename <$> attachments m.
Proof.
  intros (r & p & c & atts & t & _ & _ & _ & _ & _ & _ & Hst & _ & _ & Heq)%send_success.
  rewrite Heq. eexists. split_and!; try done; simpl.
  - by apply stage_accepts in Hst as (new & -> & Hnew & _).
  - by apply stage_accepts in Hst as (new & _ & _ & Hall).
Qed.

Lemma stage_stops env uid good bad rest : ∀ i acc,
  Forall accepted good → refused bad →
  ∃ staged msg,
    stage env uid i (good ++ bad :: rest) acc = (staged, Some msg)
    ∧ length staged = (length acc + length good)%nat.
Proof.
  induction good as [|f good IH]; intros i acc Hgood Hbad; simpl.
  - destruct (bool_decide_reflect (f_mimetype bad ∈ allowedTypes)) as [Hty|Hty]; simpl.
    + destruct (Z.ltb_spec max_file_size (f_size bad)) as [Hsz|Hsz].
      * eexists _, _. split; [done|lia].
      * destruct Hbad; [done|lia].
    + eexists _, _. split; [done|lia].
  - apply Forall_cons in Hgood as [[Hty Hsz] Hgood].
    rewrite bool_decide_eq_true_2 by done. simpl.
    destruct (Z.ltb_spec max_file_size (f_size f)); [lia|].
    destruct (IH (S i) (acc ++ [{| a_url := "/uploads/" +:+
        ("message-" +:+ uid +:+ "-" +:+ pretty (date_now env i) +:+ "-"
           +:+ random36 env i +:+ extname env (f_name f));
        a_filename := "message-" +:+ uid +:+ "-" +:+ pretty (date_now env i)
           +:+ "-" +:+ random36 env i +:+ extname env (f_name f);
        a_originalName := f_name f; a_size := f_size f;
        a_mimetype := f_mimetype f |}]) Hgood Hbad)
      as (staged & msg & Heq & Hlen).
    exists staged, msg. split; [exact Heq|]. rewrite Hlen, length_app. simpl. lia.
Qed.

(** X3: when the loop over the uploaded files meets a file it refuses, the
    request is answered 400 and no message is created, but the files
    before that one have already been written to the uploads directory. *)
Theorem send_refusal_leaves_files env st req good bad rest :
  deliverable st req → Js.trim (raw_content req) ≠ "" →
  uploadedFiles req = good ++ bad :: rest →
  Forall accepted good → refused bad →
  out_store (sendMessage env st req) = st
  ∧ out_events (sendMessage env st req) = []
  ∧ (∃ msg, out_result (sendMessage env st req) = fail 400 msg)
  ∧ length (out_files (sendMessage env st req)) = length good.
Proof.
  intros (r & p & Hr & Hcast & [u Hu] & Hself) Hc Hfiles Hgood Hbad.
  unfold sendMessage. rewrite !or_self, !if_same.
  assert (Js.truthy (sr_receiver req) = true) as ->.
  { apply truthy_Some. exists r. split; [done|]. by eapply cast_not_empty. }
  rewrite Hr. simpl. rewrite (findById_cast _ _ p), Hu by done. simpl.
  rewrite bool_decide_eq_false_2 by done.
  destruct (_ || _) eqn:Hblank.
  { by apply blank_content in Hblank. }
  rewrite Hfiles.
  destruct (stage_stops env (user_id (sr_user req)) good bad rest 0%nat [] Hgood Hbad)
    as (staged & msg & -> & Hlen).
  simpl. split_and!; [done|done|by eexists|]. by rewrite length_fmap.
Qed.

(** ** The socket layer never decides *)

Lemma stage_with_io env b uid files : ∀ i acc,
  stage (with_io b env) uid i files acc = stage env uid i files acc.
Proof.
  induction files as [|f files IH]; intros i acc; simpl; [done|].
  by rewrite IH.
Qed.

Lemma send_with_io env b st req :
  out_store (sendMessage (with_io b env) st req) = out_store (sendMessage env st req)
  ∧ out_result (sendMessage (with_io b env) st req)
    = out_result (sendMessage env st req)
  ∧ out_files (sendMessage (with_io b env) st req)
    = out_files (sendMessage env st req).
Proof.
  unfold sendMessage, Message_create. rewrite !or_self, !if_same, stage_with_io.
  simpl. by repeat (case_match; simpl; try done).
Qed.

Lemma send_rooms env st req :
  succeeded (out_result (sendMessage env st req)) = true → io env = true →
  ∃ r, sr_receiver req = Some r
       ∧ room <$> out_events (sendMessage env st req)
         = [r; user_id (sr_user req); r; user_id (sr_user req)]
       ∧ name <$> out_events (sendMessage env st req)
         = ["receive_message"; "message_sent"; "conversation_updated";
            "conversation_updated"].
Proof.
  intros (r & p & c & atts & t & Hr & _ & _ & _ & _ & _ & _ & _ & _ & Heq)%send_success Hio.
  rewrite Heq. simpl. rewrite Hio. by exists r.
Qed.

Lemma send_silent env st req :
  succeeded (out_result (sendMessage env st req)) = false ∨ io env = false →
  out_events (sendMessage env st req) = [].
Proof.
  unfold sendMessage, Message_create. rewrite !or_self, !if_same.
  intros [Hfail|Hio]; repeat (case_match; simpl in *; try done); congruence.
Qed.

(** X4: whether the socket layer is there or not changes neither the
    store, nor the answer, nor the files written by a send; without it, or
    when the send fails, nothing is emitted; with it a successful send
    emits exactly four events, to the rooms of the receiver, the sender,
    the receiver and the sender. *)
Theorem send_fanout env st req :
  (∀ b, out_store (sendMessage (with_io b env) st req)
        = out_store (sendMessage env st req)
        ∧ out_result (sendMessage (with_io b env) st req)
          = out_result (sendMessage env st req))
  ∧ (succeeded (out_result (sendMessage env st req)) = false ∨ io env = false →
     out_events (sendMessage env st req) = [])
  ∧ (succeeded (out_result (sendMessage env st req)) = true → io env = true →
     ∃ r, sr_receiver req = Some r
          ∧ room <$> out_events (sendMessage env st req)
            = [r; user_id (sr_user req); r; user_id (sr_user req)]
          ∧ name <$> out_events (sendMessage env st req)
            = ["receive_message"; "message_sent"; "conversation_updated";
               "conversation_updated"]).
Proof.
  split_and!.
  - intros b. by destruct (send_with_io env b st req) as (? & ? & _).
  - apply send_silent.
  - apply send_rooms.
Qed.

(** Reading a conversation, deleting a message and signalling typing
    leave the same store and give the same answer with and without the
    socket layer, and emit nothing without it. *)
Lemma transport_is_optional env st b :
  (∀ req, out_store (getConversation (with_io b env) st req)
          = out_store (getConversation env st req)
          ∧ out_result (getConversation (with_io b env) st req)
            = out_result (getConversation env st req)
          ∧ out_events (getConversation (with_io false env) st req) = [])
  ∧ (∀ user id, out_store (deleteMessage (with_io b env) st user id)
                = out_store (deleteMessage env st user id)
                ∧ out_result (deleteMessage (with_io b env) st user id)
                  = out_result (deleteMessage env st user id)
                ∧ out_events (deleteMessage (with_io false env) st user id) = [])
  ∧ (∀ req, out_store (sendTypingIndicator (with_io b env) st req)
            = out_store (sendTypingIndicator env st req)
            ∧ out_result (sendTypingIndicator (with_io b env) st req)
              = out_result (sendTypingIndicator env st req)
            ∧ out_events (sendTypingIndicator (with_io false env) st req) = []).
Proof.
  split_and!.
  - intros req. unfold getConversation. simpl.
    destruct (Mongo.findById _ _) as [err|[[p other]|]]; [done| |done].
    destruct (Mongo.page_of _ _ _); [done|]. simpl.
    by rewrite andb_false_r.
  - intros user id. unfold deleteMessage. simpl.
    destruct (ObjectId.cast id); [|done]. by destruct (head _).
  - intros req. unfold sendTypingIndicator. simpl. by destruct (negb _).
Qed.

(** ** Marking as read *)

Section Marking.
Variables (q : Message → Prop) (u : ObjectId.t) (t : Z).
Context `{∀ m, Decision (q m)}.
Hypothesis q_unread : ∀ m, q m → unread_for u m.

Let mark (m : Message) : Message :=
  if decide (q m) then Mongo.mark_read t m else m.

Lemma mark_cases m :
  (q m ∧ mark m = Mongo.mark_read t m) ∨ (¬ q m ∧ mark m = m).
Proof.
  unfold mark. destruct (decide (q m)); [left|right]; by split.
Qed.

Lemma mark_count (l : list Message) :
  (length (filter (unread_for u) (mark <$> l)) + length (filter q l)
   = length (filter (unread_for u) l))%nat.
Proof.
  induction l as [|m l IH]; csimpl; [done|]. rewrite !filter_cons.
  destruct (mark_cases m) as [[Hm ->]|[Hm ->]].
  - rewrite (decide_True (P := q m)) by done.
    rewrite (decide_False (P := unread_for u (Mongo.mark_read t m)))
      by (by intros [_ ?]).
    rewrite (decide_True (P := unread_for u m)) by (by apply q_unread).
    simpl. lia.
  - rewrite (decide_False (P := q m)) by done.
    destruct (decide (unread_for u m)); simpl; lia.
Qed.

Lemma mark_other_count (l : list Message) x :
  x ≠ u →
  length (filter (unread_for x) (mark <$> l)) = length (filter (unread_for x) l).
Proof.
  intros Hx. induction l as [|m l IH]; csimpl; [done|]. rewrite !filter_cons.
  destruct (mark_cases m) as [[Hm ->]|[Hm ->]].
  - apply q_unread in Hm as [Hr _].
    rewrite (decide_False (P := unread_for x (Mongo.mark_read t m)))
      by (intros [? _]; simpl in *; congruence).
    rewrite (decide_False (P := unread_for x m))
      by (intros [? _]; congruence).
    exact IH.
  - destruct (decide (unread_for x m)); simpl; by rewrite IH.
Qed.




Lemma mark_clears (l : list Message) : filter q (mark <$> l) = [].
Proof.
  apply filter_none. intros m' Hm' Hq.
  apply list_elem_of_fmap in Hm' as (m & -> & _).
  destruct (mark_cases m) as [[Hm Heq]|[Hm Heq]]; rewrite Heq in Hq; [|done].
  by apply q_unread in Hq as [_ ?].
Qed.

Lemma mark_sound (l : list Message) :
  Forall sound l → Forall sound (mark <$> l).
Proof.
  intros Hl. apply Forall_fmap, (Forall_impl _ _ _ Hl). intros m Hm. simpl.
  destruct (mark_cases m) as [[_ ->]|[_ ->]]; [|done].
  destruct Hm as (? & ? & ? & ? & ? & ? & _). unfold sound. simpl.
  split_and!; done.
Qed.

Lemma mark_between (l : list Message) (a b : ObjectId.t) :
  length (filter (between a b) (mark <$> l)) = length (filter (between a b) l).
Proof.
  induction l as [|m l IH]; csimpl; [done|]. rewrite !filter_cons.
  assert (between a b (mark m) ↔ between a b m) as Hiff.
  { by destruct (mark_cases m) as [[_ ->]|[_ ->]]. }
  destruct (decide (between a b m)) as [Hm|Hm].
  - rewrite decide_True by tauto. simpl. by rewrite IH.
  - by rewrite decide_False by tauto.
Qed.

End Marking.

Lemma markable_unread ids u m : markable ids u m → unread_for u m.
Proof. by intros (_ & ? & ?). Qed.

Lemma unread_from_unread p u m : unread_from p u m → unread_for u m.
Proof. by intros (_ & ? & ?). Qed.

Lemma mapM_cast_None (l : list string) s :
  s ∈ l → ObjectId.cast s = None → mapM ObjectId.cast l = None.
Proof.
  intros Hs Hnone. apply eq_None_not_Some. rewrite mapM_is_Some, Forall_forall.
  intros Hall. destruct (Hall s Hs) as [i Hi]. simpl in Hi. congruence.
Qed.


Lemma mark_failed env st req :
  no_ids (mr_messageIds req) = false →
  mapM ObjectId.cast (listed (mr_messageIds req)) = None →
  markMessagesAsRead env st req = answer st (fail 500 msg_mark_failed).
Proof. intros Hno Hcast. unfold markMessagesAsRead. by rewrite Hno, Hcast. Qed.

(** X5: marking needs a non-empty array of identifiers, else it answers
    400 and changes nothing; when one of the listed strings is not an
    ObjectId the query throws, the answer is 500 and nothing is marked;
    otherwise it reports as modifiedCount the number of listed messages
    that are addressed to the caller and unread, the caller's unread count
    drops by exactly that number, and nobody else's unread count changes. *)
Theorem mark_read_counts env st req :
  (no_ids (mr_messageIds req) = true →
   markMessagesAsRead env st req = answer st (fail 400 msg_ids_required))
  ∧ (∀ s, no_ids (mr_messageIds req) = false →
     s ∈ listed (mr_messageIds req) → ObjectId.cast s = None →
     markMessagesAsRead env st req = answer st (fail 500 msg_mark_failed))
  ∧ (∀ ids, no_ids (mr_messageIds req) = false →
     mapM ObjectId.cast (listed (mr_messageIds req)) = Some ids →
     let u := au_id (mr_user req) in
     let st' := out_store (markMessagesAsRead env st req) in
     ∃ n,
       out_result (markMessagesAsRead env st req)
       = ok 200 (Some ("Marked " +:+ pretty n +:+ " messages as read")) (Some n)
       ∧ n = length (filter (markable ids u) (messages st))
       ∧ (unreadCount st' u + n = unreadCount st u)%nat
       ∧ ∀ x, x ≠ u → unreadCount st' x = unreadCount st x).
Proof.
  split_and!.
  - unfold markMessagesAsRead. by intros ->.
  - intros s Hno Hs Hnone. apply mark_failed; [done|]. by eapply mapM_cast_None.
  - unfold markMessagesAsRead. intros ids -> ->. simpl.
    eexists. split_and!; [done|done|..].
    + apply (mark_count _ (au_id (mr_user req)) _ (markable_unread _ _)).
    + intros x Hx. unfold unreadCount. simpl.
      by apply (mark_other_count _ (au_id (mr_user req)) _ (markable_unread _ _)).
Qed.


(** X7: marking the same identifiers again modifies nothing: the store
    stays as the first call left it; when every listed string is an
    ObjectId the modifiedCount is 0, and otherwise the answer is the 500
    of the first call. *)
Theorem mark_read_idempotent env env' st req :
  let st' := out_store (markMessagesAsRead env st req) in
  out_store (markMessagesAsRead env' st' req) = st'
  ∧ (no_ids (mr_messageIds req) = false →
     is_Some (mapM ObjectId.cast (listed (mr_messageIds req))) →
     out_result (markMessagesAsRead env' st' req)
     = ok 200 (Some "Marked 0 messages as read") (Some 0%nat))
  ∧ (no_ids (mr_messageIds req) = false →
     mapM ObjectId.cast (listed (mr_messageIds req)) = None →
     out_result (markMessagesAsRead env st req) = fail 500 msg_mark_failed
     ∧ out_result (markMessagesAsRead env' st' req) = fail 500 msg_mark_failed).
Proof.
  intros st'. unfold st', markMessagesAsRead.
  destruct (no_ids (mr_messageIds req)) eqn:Hno; simpl; [done|].
  destruct (mapM ObjectId.cast (listed (mr_messageIds req))) as [ids|] eqn:Hcast; simpl.
  - unfold Mongo.updateMany.
    rewrite (mark_clears _ (au_id (mr_user req)) _ (markable_unread _ _)).
    split_and!; [|done|done]. unfold with_messages. simpl. f_equal.
    rewrite <-(list_fmap_id (_ <$> messages st)) at 2.
    apply list_fmap_ext. intros i m' Hm'. simpl.
    apply list_lookup_fmap_Some in Hm' as (m & -> & _).
    rewrite decide_False; [done|]. intros Hq.
    destruct (decide (markable _ _ m)); [by destruct Hq as (_ & _ & ?)|done].
  - split_and!; [done| |done]. by intros _ [? ?].
Qed.

(** ** More on reading a conversation *)

Lemma conversation_served env st req p :
  ObjectId.cast (cr_userId req) = Some p →
  is_Some (users st !! p) → valid_page req →
  let u := au_id (cr_user req) in
  let limit := int_or (cr_limit req) 50 in
  let skip := (int_or (cr_page req) 1 - 1) * limit in
  let swept := filter (unread_from p u) (messages st) in
  ∃ other,
    users st !! p = Some other
    ∧ getConversation env st req
      = {| out_store :=
             with_messages st
               (Mongo.updateMany (unread_from p u) (Mongo.mark_read (now env))
                  (messages st));
           out_events :=
             if bool_decide (0 < length swept)%nat && io env
             then [ {| room := cr_userId req; name := "messages_read";
                       payload := MessagesRead (user_id (cr_user req))
                                    (m_id <$> swept) |} ]
             else [];
           out_files := [];
           out_result :=
             ok 200 None
               (Some {| cd_messages :=
                          reverse (Mongo.populate st <$>
                            take (Z.to_nat (Z.abs limit))
                              (drop (Z.to_nat skip)
                                 (Mongo.sort_desc
                                    (filter (between u p) (messages st)))));
                        cd_otherUser := profile_of p other;
                        cd_pagination :=
                          {| pg_page := int_or (cr_page req) 1;
                             pg_limit := limit;
                             pg_total :=
                               length (filter (between u p) (messages st));
                             pg_pages :=
                               ceil_div
                                 (Z.of_nat (length (filter (between u p)
                                                      (messages st))))
                                 limit |} |}) |}.
Proof.
  intros Hc [other Hp] Hpage u limit skip swept. exists other. split; [done|].
  unfold getConversation, Mongo.page_of. rewrite (findById_cast _ _ p), Hp by done.
  simpl. fold u limit skip.
  destruct (Z.ltb_spec skip 0) as [Hneg|_].
  { unfold valid_page in Hpage. fold limit skip in Hpage. lia. }
  fold swept.
  destruct (bool_decide_reflect (0 < length swept)%nat) as [Hpos|Hzero]; simpl.
  - unfold Mongo.updateMany.
    rewrite !(mark_between (unread_from p u) (now env)). reflexivity.
  - unfold Mongo.updateMany.
    rewrite (sweep_nothing p u (now env))
      by (apply length_zero_iff_nil; unfold swept in Hzero; lia).
    by destruct st.
Qed.

(** X8: which page is asked for has no bearing on what is marked: any two
    served requests of the same caller for the same peer leave the same
    store and announce the same read receipt, even a page past the end
    that returns no message. *)
Theorem sweep_ignores_page env st req req' p :
  ObjectId.cast (cr_userId req) = Some p →
  is_Some (users st !! p) → valid_page req → valid_page req' →
  cr_user req' = cr_user req → cr_userId req' = cr_userId req →
  out_store (getConversation env st req') = out_store (getConversation env st req)
  ∧ out_events (getConversation env st req') = out_events (getConversation env st req)
  ∧ ((length (Mongo.sort_desc (filter (between (au_id (cr_user req')) p)
                                 (messages st)))
      ≤ Z.to_nat ((int_or (cr_page req') 1 - 1) * int_or (cr_limit req') 50))%nat →
     returned (getConversation env st req') = []).
Proof.
  intros Hc Hp Hpage Hpage' Huser Hpeer.
  assert (ObjectId.cast (cr_userId req') = Some p) as Hc' by (by rewrite Hpeer).
  destruct (conversation_served env st req p Hc Hp Hpage) as (other & _ & ->).
  destruct (conversation_served env st req' p Hc' Hp Hpage') as (other' & _ & ->).
  rewrite Huser, Hpeer. simpl. split_and!; [done|done|].
  intros Hlen. unfold returned. simpl.
  rewrite drop_ge by done. by rewrite take_nil.
Qed.

(** X9: a :userId that is no ObjectId makes the handler throw, which the
    caller sees as a 500, and an identifier that names no user is answered
    404; in both cases nothing is marked as read and nothing is emitted. *)
Theorem conversation_refused env st req :
  (ObjectId.cast (cr_userId req) = None →
   getConversation env st req = answer st (Threw (CastError "_id" (cr_userId req)))
   ∧ status (sent (out_result (getConversation env st req))) = 500)
  ∧ (∀ p, ObjectId.cast (cr_userId req) = Some p → users st !! p = None →
     getConversation env st req = answer st (fail 404 "User not found")).
Proof.
  unfold getConversation. split.
  - intros Hc. by rewrite findById_malformed.
  - intros p Hc Hp. by rewrite (findById_cast _ _ p), Hp.
Qed.


Lemma ceil_div_bounds (total limit : Z) :
  0 < limit →
  (ceil_div total limit - 1) * limit < total ≤ ceil_div total limit * limit.
Proof.
  intros Hl. unfold ceil_div.
  pose proof (Z.div_mod (- total) limit ltac:(lia)) as Hdm.
  pose proof (Z.mod_pos_bound (- total) limit Hl) as Hr. nia.
Qed.

(** X11: the pagination of a served conversation counts every message of
    the pair, whatever the page; with a positive limit the page has at most
    limit messages and pages is the least number of pages of that size
    that hold them all. *)
Theorem conversation_pagination env st req p :
  ObjectId.cast (cr_userId req) = Some p →
  is_Some (users st !! p) → valid_page req →
  0 < int_or (cr_limit req) 50 →
  let u := au_id (cr_user req) in
  let limit := int_or (cr_limit req) 50 in
  ∃ d,
    out_result (getConversation env st req) = ok 200 None (Some d)
    ∧ pg_total (cd_pagination d) = length (filter (between u p) (messages st))
    ∧ pg_limit (cd_pagination d) = limit
    ∧ (length (cd_messages d) ≤ Z.to_nat limit)%nat
    ∧ (pg_pages (cd_pagination d) - 1) * limit
      < Z.of_nat (pg_total (cd_pagination d))
      ≤ pg_pages (cd_pagination d) * limit.
Proof.
  intros Hc Hp Hpage Hlimit u limit.
  destruct (conversation_served env st req p Hc Hp Hpage) as (other & _ & ->).
  eexists. split; [done|]. simpl. do 2 (split; [done|]). split.
  - rewrite length_reverse, length_fmap, length_take. fold limit. lia.
  - by apply ceil_div_bounds.
Qed.

Lemma pages_concat {A} (n : nat) : ∀ (k : nat) (l : list A),
  (0 < n)%nat → (length l ≤ k * n)%nat →
  concat ((λ i, take n (drop (i * n) l)) <$> seq 0 k) = l.
Proof.
  induction k as [|k IH]; intros l Hn Hlen.
  - simpl in *. symmetry. apply length_zero_iff_nil. lia.
  - cbn [seq]. rewrite <-fmap_S_seq, fmap_cons, <-list_fmap_compose, concat_cons.
    simpl. etrans; [|apply (take_drop n l)]. f_equal.
    etrans; [|apply (IH (drop n l)); [done|rewrite length_drop; lia]].
    f_equal. apply list_fmap_ext. intros i j _. simpl. by rewrite drop_drop.
Qed.

Lemma returned_page env st user peer p (i n : nat) :
  ObjectId.cast peer = Some p → is_Some (users st !! p) → (0 < n)%nat →
  returned (getConversation env st
              (page_request user peer (Z.of_nat (S i)) (Z.of_nat n)))
  = reverse (take n (drop (i * n)
               (Mongo.sort_desc (filter (between (au_id user) p) (messages st))))).
Proof.
  intros Hc Hp Hn.
  assert (valid_page (page_request user peer (Z.of_nat (S i)) (Z.of_nat n))) as Hpage.
  { unfold valid_page. simpl.
    destruct (Z.eqb_spec (Z.of_nat (S i)) 0); [lia|].
    destruct (Z.eqb_spec (Z.of_nat n) 0); lia. }
  destruct (conversation_served env st
              (page_request user peer (Z.of_nat (S i)) (Z.of_nat n)) p Hc Hp Hpage)
    as (other & _ & ->).
  unfold returned. simpl. rewrite fmap_reverse, populate_doc.
  destruct (Z.eqb_spec (Z.of_nat (S i)) 0); [lia|].
  destruct (Z.eqb_spec (Z.of_nat n) 0); [lia|].
  do 3 f_equal; lia.
Qed.

(** With distinct [createdAt]s there is one way only to sort newest
    first. *)
Lemma sorted_desc_unique (l1 : list Message) : ∀ l2,
  NoDup (createdAt <$> l1) → l1 ≡ₚ l2 →
  StronglySorted Mongo.newer_first l1 → StronglySorted Mongo.newer_first l2 →
  l1 = l2.
Proof.
  induction l1 as [|x l1 IH]; intros l2 Hnd Hperm Hs1 Hs2.
  - by apply Permutation_nil_l in Hperm.
  - destruct l2 as [|y l2]; [by apply Permutation_nil_r in Hperm|].
    apply NoDup_cons in Hnd as [Hx Hnd]. csimpl in Hx.
    apply StronglySorted_inv in Hs1 as [Hs1 Hx1].
    apply StronglySorted_inv in Hs2 as [Hs2 Hy2].
    rewrite Forall_forall in Hx1. rewrite Forall_forall in Hy2.
    assert (x = y) as <-.
    { destruct (decide (x = y)) as [|Hne]; [done|]. exfalso.
      assert (x ∈ l2) as Hx2.
      { assert (x ∈ y :: l2) as Hin by (rewrite <-Hperm; left).
        by apply elem_of_cons in Hin as [|]. }
      assert (y ∈ l1) as Hy1.
      { assert (y ∈ x :: l1) as Hin by (rewrite Hperm; left).
        apply elem_of_cons in Hin as [|]; [congruence|done]. }
      apply Hx. replace (createdAt x) with (createdAt y).
      - by apply list_elem_of_fmap_2.
      - pose proof (Hx1 y Hy1). pose proof (Hy2 x Hx2).
        unfold Mongo.newer_first in *. lia. }
    f_equal. apply IH; [done| |done|done]. by apply Permutation_cons_inv in Hperm.
Qed.

(** X12: with a positive limit and distinct createdAt among the messages
    of the pair, the pages 1, 2, ... of a conversation, each put back
    newest first and laid end to end, are the messages of the pair sorted
    by createdAt descending: no message is left out and none comes
    twice. *)
Theorem pages_cover env st user peer p (n k : nat) :
  ObjectId.cast peer = Some p → is_Some (users st !! p) → (0 < n)%nat →
  (length (filter (between (au_id user) p) (messages st)) ≤ k * n)%nat →
  NoDup (createdAt <$> filter (between (au_id user) p) (messages st)) →
  ∀ sorted,
    sorted ≡ₚ filter (between (au_id user) p) (messages st) →
    StronglySorted Mongo.newer_first sorted →
    concat ((λ i, reverse (returned (getConversation env st
                     (page_request user peer (Z.of_nat (S i)) (Z.of_nat n)))))
            <$> seq 0 k)
    = sorted.
Proof.
  intros Hc Hp Hn Hlen Hnd sorted Hperm Hsorted.
  rewrite (sorted_desc_unique sorted
             (Mongo.sort_desc (filter (between (au_id user) p) (messages st))));
    [|by rewrite Hperm|by rewrite sort_desc_perm|done|apply sort_desc_sorted].
  etrans; [|apply (pages_concat n k); [done|by rewrite sort_desc_perm]].
  f_equal. apply list_fmap_ext. intros i j _. simpl.
  by rewrite (returned_page _ _ _ _ p), reverse_involutive.
Qed.

Lemma updateMany_ext (q q' : Message → Prop) `{∀ m, Decision (q m)}
    `{∀ m, Decision (q' m)} (f : Message → Message) (l : list Message) :
  (∀ m, m ∈ l → q m ↔ q' m) → Mongo.updateMany q f l = Mongo.updateMany q' f l.
Proof.
  intros Hqq. unfold Mongo.updateMany. apply list_fmap_ext. intros i m Hm.
  apply list_elem_of_lookup_2 in Hm. destruct (decide (q m)) as [Hq|Hq].
  - rewrite decide_True; [done|]. by apply Hqq.
  - rewrite decide_False; [done|]. by rewrite <-Hqq.
Qed.

(** X13: with unique message identifiers, marking the identifiers of the
    unread messages from a peer, which are the ones the read receipt of a
    conversation request lists, leaves the same store as that conversation
    request. *)
Theorem mark_announced_is_sweep env st req p :
  NoDup (m_id <$> messages st) →
  ObjectId.cast (cr_userId req) = Some p →
  is_Some (users st !! p) → valid_page req →
  let u := au_id (cr_user req) in
  let ids := m_id <$> filter (unread_from p u) (messages st) in
  out_store (markMessagesAsRead env st
               {| mr_user := cr_user req;
                  mr_messageIds := ArrayIds (ObjectId.toString <$> ids) |})
  = out_store (getConversation env st req).
Proof.
  intros Hnd Hc Hp Hpage u ids.
  destruct (conversation_served env st req p Hc Hp Hpage) as (other & _ & ->).
  unfold markMessagesAsRead. simpl. fold u. rewrite mapM_cast_toString, length_fmap.
  destruct (bool_decide_reflect (length ids = 0%nat)) as [Hnil|Hsome]; simpl.
  - unfold ids in Hnil. rewrite length_fmap in Hnil.
    apply length_zero_iff_nil in Hnil. unfold Mongo.updateMany.
    rewrite (sweep_nothing p u (now env)) by done. by destruct st.
  - f_equal. apply updateMany_ext. intros m Hm. split.
    + intros (Hin & _). apply list_elem_of_fmap in Hin as (m0 & Hid & Hm0).
      apply list_elem_of_filter in Hm0 as [Hun Hm0].
      by rewrite (unique_by_id (messages st) m m0).
    + intros Hun. split_and!.
      * apply list_elem_of_fmap_2, list_elem_of_filter. by split.
      * by destruct Hun as (_ & ? & _).
      * by destruct Hun as (_ & _ & ?).
Qed.

(** ** What every call of the router keeps *)

Lemma deleteById_elem id (l : list Message) m :
  m ∈ Mongo.deleteById id l → m ∈ l.
Proof.
  induction l as [|a l IH]; simpl; [done|].
  destruct (bool_decide (m_id a = id)).
  - by right.
  - intros [->|Hm]%elem_of_cons; [left|right; by apply IH].
Qed.

Lemma deleteById_keeps id (l : list Message) m :
  m ∈ l → m_id m ≠ id → m ∈ Mongo.deleteById id l.
Proof.
  induction l as [|a l IH]; simpl; [done|].
  intros [->|Hm]%elem_of_cons Hid.
  - rewrite bool_decide_eq_false_2 by done. left.
  - destruct (bool_decide (m_id a = id)); [done|]. right. by apply IH.
Qed.

Lemma sent_sound env st req m :
  succeeded (out_result (sendMessage env st req)) = true →
  messages (out_store (sendMessage env st req)) = messages st ++ [m] →
  sound m.
Proof.
  intros (r & p & c & atts & t & Hr & Hcast & _ & Hself & Hc & Hblank & Hst & Hp & Hfile
          & Heq)%send_success.
  rewrite Heq. simpl. intros [_ [= <-]]%app_inj_tail.
  apply valid_paths in Hp as (Hp1 & Hp2 & Hp3).
  apply stage_accepts in Hst as (new & -> & Hnew & Hall).
  unfold sound. simpl. rewrite !trim_idemp in *. split_and!; try done.
  clear -Hnew Hall. induction Hnew as [|a f atts files Ha Hnew IH]; [done|].
  apply Forall_cons in Hall as [[Hty Hsz] Hall]. constructor; [|by apply IH].
  destruct Ha as (_ & -> & -> & _). done.
Qed.

Lemma mark_users env st req : users (out_store (markMessagesAsRead env st req)) = users st.
Proof.
  unfold markMessagesAsRead. destruct (no_ids _); [done|]. by destruct (mapM _ _).
Qed.

Lemma delete_users env st user id :
  users (out_store (deleteMessage env st user id)) = users st.
Proof.
  unfold deleteMessage. destruct (ObjectId.cast id); [|done]. by destruct (head _).
Qed.

Lemma dispatch_users st c : users (dispatch st c) = users st.
Proof.
  destruct c as [env req| |env req|env req|env user id| |env req]; simpl; try done.
  - destruct (succeeded (out_result (sendMessage env st req))) eqn:Hok.
    + by apply send_appended in Hok as (m & _ & ? & _).
    + by rewrite send_failed_frame.
  - apply conversation_users.
  - apply mark_users.
  - apply delete_users.
  - apply (f_equal users (typing_frame env st req)).
Qed.

Lemma dispatch_sound st c :
  Forall sound (messages st) → Forall sound (messages (dispatch st c)).
Proof.
  intros Hst.
  destruct c as [env req| |env req|env req|env user id| |env req]; simpl; try done.
  - destruct (succeeded (out_result (sendMessage env st req))) eqn:Hok.
    + destruct (send_appended env st req Hok) as (m & Hm & _).
      rewrite Hm. apply Forall_app. split; [done|].
      apply Forall_singleton. by eapply sent_sound.
    + by rewrite send_failed_frame.
  - unfold getConversation.
    destruct (Mongo.findById _ _) as [err|[[p other]|]]; [done| |done].
    destruct (Mongo.page_of _ _ _); [done|]. simpl.
    destruct (bool_decide _); [|done]. simpl. by apply mark_sound.
  - unfold markMessagesAsRead. destruct (no_ids _); [done|].
    destruct (mapM _ _); [|done]. simpl. by apply mark_sound.
  - unfold deleteMessage. destruct (ObjectId.cast id) as [oid|]; [|done].
    destruct (head _); [|done]. simpl.
    rewrite Forall_forall in Hst. apply Forall_forall. intros x Hx.
    by apply Hst, (deleteById_elem oid).
  - by rewrite typing_frame.
Qed.

(** X14: every message in the store keeps the shape the schema and the
    controller give it, over any sequence of calls of the message routes:
    the content is trimmed, not empty and at most 1000 long, the type is
    one of the enum and is 'file' when there are attachments, every
    attachment is of an allowed type and at most 5MB, and a message is
    read exactly when it has a readAt; the user directory is never
    touched. *)
Theorem store_stays_sound calls st :
  Forall sound (messages st) →
  Forall sound (messages (serve calls st)) ∧ users (serve calls st) = users st.
Proof.
  unfold serve. revert st. induction calls as [|c calls IH]; intros st Hst; simpl.
  - done.
  - destruct (IH (dispatch st c) (dispatch_sound st c Hst)) as [Hs Hu].
    split; [done|]. by rewrite Hu, dispatch_users.
Qed.

(** X15: reading is one way.  Whatever the call, a message that has been
    read is still in the store afterwards exactly as it was, with its
    readAt, unless the call is the deletion of that message. *)
Theorem read_is_final st c m :
  m ∈ messages st → isRead m = true →
  m ∈ messages (dispatch st c)
  ∨ ∃ env user id, c = DeleteMessage env user id
                   ∧ ObjectId.cast id = Some (m_id m).
Proof.
  intros Hm Hread.
  assert (∀ (q : Message → Prop) `{∀ x, Decision (q x)} t,
            (∀ x, q x → isRead x = false) →
            m ∈ Mongo.updateMany q (Mongo.mark_read t) (messages st)) as Hmark.
  { intros q Hdec t Hq. unfold Mongo.updateMany. apply list_elem_of_fmap.
    exists m. split; [|done]. rewrite decide_False; [done|].
    intros Hqm%Hq. congruence. }
  destruct c as [env req| |env req|env req|env user id| |env req]; simpl;
    try (by left).
  - left. destruct (succeeded (out_result (sendMessage env st req))) eqn:Hok.
    + destruct (send_appended env st req Hok) as (m' & -> & _).
      apply elem_of_app. by left.
    + by rewrite send_failed_frame.
  - left. unfold getConversation.
    destruct (Mongo.findById _ _) as [err|[[p other]|]]; [done| |done].
    destruct (Mongo.page_of _ _ _); [done|]. simpl.
    destruct (bool_decide _); [|done]. simpl.
    apply Hmark. by intros x (_ & _ & ?).
  - left. unfold markMessagesAsRead. destruct (no_ids _); [done|].
    destruct (mapM _ _); [|done]. simpl.
    apply Hmark. by intros x (_ & _ & ?).
  - unfold deleteMessage. destruct (ObjectId.cast id) as [oid|] eqn:Hc; [|by left].
    destruct (head _); [|by left]. simpl.
    destruct (decide (m_id m = oid)) as [<-|Hid].
    + right. by exists env, user, id.
    + left. by apply deleteById_keeps.
  - left. by rewrite typing_frame.
Qed.

(** ** Deleting, again *)

Lemma deleteById_last id (l : list Message) m :
  id ∉ m_id <$> l → m_id m = id → Mongo.deleteById id (l ++ [m]) = l.
Proof.
  intros Hid Hm. induction l as [|a l IH]; simpl.
  - by rewrite bool_decide_eq_true_2.
  - apply not_elem_of_cons in Hid as [Ha Hid].
    rewrite bool_decide_eq_false_2 by done. f_equal. by apply IH.
Qed.

Lemma head_filter_last {A} (P : A → Prop) `{∀ x, Decision (P x)} (l : list A) x :
  (∀ y, y ∈ l → ¬ P y) → P x → head (filter P (l ++ [x])) = Some x.
Proof.
  intros Hl Hx. rewrite filter_app, (filter_none P l) by done.
  by rewrite filter_cons, decide_True.
Qed.

(** X16: a message just sent can be taken back: when the identifier given
    to the new message is not in use, its deletion by the sender succeeds,
    returns that message and leaves the store exactly as it was before the
    send. *)
Theorem send_then_delete env env' st req :
  succeeded (out_result (sendMessage env st req)) = true →
  fresh_id env ∉ m_id <$> messages st →
  let st' := out_store (sendMessage env st req) in
  let id := ObjectId.toString (fresh_id env) in
  out_store (deleteMessage env' st' (sr_user req) id) = st
  ∧ ∃ m, messages st' = messages st ++ [m]
         ∧ out_result (deleteMessage env' st' (sr_user req) id)
           = ok 200 (Some "Message deleted successfully") (Some m).
Proof.
  intros Hok Hfresh st' id.
  destruct (send_appended env st req Hok) as (m & Hm & Hu & Hid & Hs & _).
  fold st' in Hm, Hu.
  assert (∀ y, y ∈ messages st → m_id y ≠ fresh_id env) as Hother.
  { intros y Hy Heq. apply Hfresh. rewrite <-Heq. by apply list_elem_of_fmap_2. }
  unfold deleteMessage, id. rewrite cast_toString, Hm.
  rewrite (head_filter_last (owned_by _ _) _ m); [|intros y Hy [? _]; by eapply Hother|done].
  rewrite (head_filter_last (λ x, m_id x = fresh_id env) _ m); [|by apply Hother|done].
  simpl. rewrite deleteById_last by done. split; [|by exists m].
  unfold with_messages. rewrite Hu. by destruct st.
Qed.

(** X17: with unique message identifiers a deletion cannot be repeated:
    once a message has been deleted, deleting the same identifier again,
    by anyone, is answered 404 and changes nothing. *)
Theorem delete_once env env' st user user' id :
  NoDup (m_id <$> messages st) →
  succeeded (out_result (deleteMessage env st user id)) = true →
  let st' := out_store (deleteMessage env st user id) in
  (∀ m, m ∈ messages st' → ObjectId.cast id ≠ Some (m_id m))
  ∧ deleteMessage env' st' user' id = answer st' (fail 404 msg_delete_refused).
Proof.
  intros Hnd Hok st'.
  destruct (ObjectId.cast id) as [oid|] eqn:Hc;
    [|by unfold deleteMessage in Hok; rewrite Hc in Hok].
  assert (messages st' = filter (λ m, m_id m ≠ oid) (messages st)) as Hst'.
  { unfold st', deleteMessage in *. rewrite Hc in *. destruct (head _); [|done]. simpl.
    by apply deleteById_unique. }
  assert (∀ m, m ∈ messages st' → m_id m ≠ oid) as Hgone.
  { intros m. rewrite Hst', list_elem_of_filter. tauto. }
  split.
  - intros m Hm [= ->]. by eapply Hgone.
  - unfold deleteMessage. rewrite Hc.
    assert (head (filter (owned_by oid (au_id user')) (messages st')) = None) as ->;
      [|done].
    apply head_filter_None. intros m Hm [Hid _]. by eapply Hgone.
Qed.

(** ** The conversation list and the unread count *)

Lemma accumulate_unread u m gs :
  unread_sum (accumulate u m gs) = (unread_sum gs + unread_inc u m)%nat.
Proof.
  unfold unread_sum. induction gs as [|g gs IH]; simpl; [lia|].
  destruct (decide (g_id g = peer_of u m)); simpl; [lia|]. rewrite IH. lia.
Qed.

Lemma foldl_unread u l : ∀ gs,
  unread_sum (foldl (λ gs m, accumulate u m gs) gs l)
  = (unread_sum gs + length (filter (unread_for u) l))%nat.
Proof.
  induction l as [|m l IH]; intros gs; simpl; [lia|].
  rewrite IH, accumulate_unread, filter_cons. unfold unread_inc.
  destruct (decide (unread_for u m)); simpl; lia.
Qed.

Lemma unread_total_perm rows rows' :
  rows ≡ₚ rows' → unread_total rows = unread_total rows'.
Proof.
  unfold unread_total.
  induction 1 as [|r l l' _ IH|r r' l|l l' l'' _ IH _ IH']; simpl; lia.
Qed.

Lemma rows_unread_le st gs :
  (unread_total (omap (lookup_unwind st) gs) ≤ unread_sum gs)%nat.
Proof.
  unfold unread_total, unread_sum. induction gs as [|g gs IH]; csimpl; [done|].
  unfold lookup_unwind at 1. destruct (users st !! g_id g); simpl; lia.
Qed.

Lemma rows_unread_eq st gs :
  (∀ g, g ∈ gs → (0 < g_unreadCount g)%nat → is_Some (users st !! g_id g)) →
  unread_total (omap (lookup_unwind st) gs) = unread_sum gs.
Proof.
  unfold unread_total, unread_sum.
  induction gs as [|g gs IH]; csimpl; [done|]. intros Hall.
  rewrite <-IH by (intros g' Hg'; apply Hall; by right).
  unfold lookup_unwind at 1. destruct (users st !! g_id g) eqn:Hu; simpl; [done|].
  destruct (g_unreadCount g) eqn:Hn; [done|].
  destruct (Hall g) as [? ?]; [left|lia|congruence].
Qed.

Lemma groups_unread st u :
  unread_sum (group_stage u (Mongo.sort_desc (filter (involves u) (messages st))))
  = unreadCount st u.
Proof.
  unfold group_stage. rewrite foldl_unread. simpl.
  apply (sorted_count st u). intros m. split; [tauto|].
  intros Hm. split; [done|]. right. by destruct Hm.
Qed.

(** X18: the unread counts of the rows of a user's conversation list never
    add up to more than the user's unread count. *)
Theorem list_unread_at_most st user :
  (unread_total (aggregate st (au_id user)) ≤ unreadCount st (au_id user))%nat.
Proof.
  unfold aggregate. rewrite (unread_total_perm _ _ (merge_sort_Permutation _ _)).
  rewrite <-groups_unread. apply rows_unread_le.
Qed.

(** X19: when everyone who has an unread message for the user is still in
    the user directory, the unread counts of the rows add up to exactly
    the user's unread count. *)
Theorem list_unread_exact st user :
  (∀ m, m ∈ messages st → unread_for (au_id user) m →
        is_Some (users st !! sender m)) →
  unread_total (aggregate st (au_id user)) = unreadCount st (au_id user).
Proof.
  intros Hreg. unfold aggregate.
  rewrite (unread_total_perm _ _ (merge_sort_Permutation _ _)).
  rewrite <-groups_unread. apply rows_unread_eq. intros g Hg Hpos.
  destruct (group_summary st (au_id user) g Hg) as (_ & _ & _ & Hun & _).
  rewrite Hun in Hpos.
  remember (filter (λ m, between (au_id user) (g_id g) m ∧ unread_for (au_id user) m)
              (messages st)) as F eqn:HF.
  destruct F as [|m l]; [simpl in Hpos; lia|].
  assert (m ∈ m :: l) as Hm by left. rewrite HF in Hm.
  apply list_elem_of_filter in Hm as [[Hbt Hur] Hm].
  assert (sender m = g_id g) as <-.
  { destruct Hur as [Hr _]. destruct Hbt as [[? ?]|[? ?]]; congruence. }
  by apply Hreg.
Qed.

Lemma aggregate_row st u r :
  r ∈ aggregate st u →
  is_Some (users st !! c_id r)
  ∧ c_unreadCount r
    = length (filter (λ m, between u (c_id r) m ∧ unread_for u m) (messages st)).
Proof.
  unfold aggregate. rewrite merge_sort_Permutation, list_elem_of_omap.
  intros (g & Hg & Hr). unfold lookup_unwind in Hr.
  destruct (users st !! g_id g) eqn:Hu; simplify_eq/=. split; [by rewrite Hu|].
  by destruct (group_summary st u g Hg) as (_ & _ & _ & Hun & _).
Qed.

(** X20: once the caller has opened the conversation with a peer, the
    peer's row in the caller's conversation list shows no unread message. *)
Theorem open_clears_row env st req p :
  ObjectId.cast (cr_userId req) = Some p →
  is_Some (users st !! p) → valid_page req →
  ∀ r, r ∈ aggregate (out_store (getConversation env st req)) (au_id (cr_user req)) →
       c_id r = p → c_unreadCount r = 0%nat.
Proof.
  intros Hc Hp Hpage r Hr Hid. apply aggregate_row in Hr as [_ ->].
  rewrite (conversation_store env st req p Hc Hp Hpage), Hid.
  apply length_zero_iff_nil, filter_none. intros m' Hm' [Hbt [Hrcv Hun]].
  assert (m' ∈ filter (unread_from p (au_id (cr_user req)))
            ((λ m, if decide (unread_from p (au_id (cr_user req)) m)
                   then Mongo.mark_read (now env) m else m) <$> messages st)) as Hin.
  { apply list_elem_of_filter. split; [|done]. split_and!; [|done|done].
    destruct Hbt as [[? ?]|[? ?]]; congruence. }
  rewrite sweep_clears in Hin. by apply elem_of_nil in Hin.
Qed.

(** ** Deleting a user *)

(** X21: the deletion of a user leaves every message in the store, so the
    messages of the deleted user still count as unread for their receivers;
    but the deleted user has no row in anybody's conversation list any
    more, the conversation can no longer be opened (and so never be marked
    read that way), and nothing can be sent to the deleted user. *)
Theorem delete_user_orphans st self id p :
  ObjectId.cast id = Some p →
  is_Some (users st !! p) → p ≠ au_id self →
  let st' := out_store (deleteUser st self id) in
  succeeded (out_result (deleteUser st self id)) = true
  ∧ users st' !! p = None ∧ messages st' = messages st
  ∧ (∀ u, unreadCount st' u = unreadCount st u)
  ∧ (∀ u, p ∉ c_id <$> aggregate st' u)
  ∧ (∀ env req, ObjectId.cast (cr_userId req) = Some p →
       getConversation env st' req = answer st' (fail 404 "User not found"))
  ∧ (∀ env req r, sr_receiver req = Some r → ObjectId.cast r = Some p →
       sendMessage env st' req = answer st' (fail 404 msg_receiver_not_found)).
Proof.
  intros Hc [usr Hp] Hself st'.
  assert (deleteUser st self id
          = answer {| users := delete p (users st); messages := messages st |}
              (ok 200 (Some "User deleted successfully") None)) as Heq.
  { unfold deleteUser. rewrite (findById_cast _ _ p), Hp by done. simpl.
    rewrite bool_decide_eq_false_2; [done|]. unfold user_id.
    intros Heq. by apply (inj ObjectId.toString) in Heq. }
  unfold st'. rewrite Heq. simpl.
  split_and!; [done|apply lookup_delete_eq|done|done|..].
  - intros u Hin. apply list_elem_of_fmap in Hin as (r & -> & Hr).
    apply aggregate_row in Hr as [[? Hu] _]. simpl in Hu.
    by rewrite lookup_delete_eq in Hu.
  - intros env req Hid. unfold getConversation.
    rewrite (findById_cast _ _ p) by done. simpl.
    by rewrite lookup_delete_eq.
  - intros env req r Hr Hcr. apply (send_unknown_receiver _ _ _ r p); [done|done|].
    apply lookup_delete_eq.
Qed.

(** ** The XSS middleware in front of the routes *)

Lemma strip_from_tagless s : ∀ inside, tagless (Server.strip_tags_from inside s).
Proof.
  induction s as [|c s IH]; intros [|]; simpl; [done|done|..].
  - destruct (Ascii.eqb c ">"); apply IH.
  - destruct (Ascii.eqb_spec c "<"); [apply IH|]. simpl. split; [done|apply IH].
Qed.

Lemma strip_tagless_id s : tagless s → Server.strip_tags s = s.
Proof.
  unfold Server.strip_tags. induction s as [|c s IH]; simpl; [done|].
  intros [Hc Hs]. destruct (Ascii.eqb_spec c "<"); [done|]. by rewrite IH.
Qed.

Lemma strip_from_sublist s : ∀ inside,
  sublist (list_ascii_of_string (Server.strip_tags_from inside s))
    (list_ascii_of_string s).
Proof.
  induction s as [|c s IH]; intros [|]; simpl; [done|done|..].
  - destruct (Ascii.eqb c ">"); by apply sublist_cons.
  - destruct (Ascii.eqb c "<"); [by apply sublist_cons|]. simpl.
    by apply sublist_skip.
Qed.

(** X22: the tag-stripping replacement of the middleware leaves no ['<']
    in the string, only ever removes characters, changes nothing in a
    string without ['<'], and doing it twice is doing it once. *)
Theorem strip_tags_spec s :
  tagless (Server.strip_tags s)
  ∧ sublist (list_ascii_of_string (Server.strip_tags s)) (list_ascii_of_string s)
  ∧ (tagless s → Server.strip_tags s = s)
  ∧ Server.strip_tags (Server.strip_tags s) = Server.strip_tags s.
Proof.
  split_and!.
  - apply strip_from_tagless.
  - apply strip_from_sublist.
  - apply strip_tagless_id.
  - apply strip_tagless_id, strip_from_tagless.
Qed.

Lemma trimStart_tagless s : tagless s → tagless (Js.trimStart s).
Proof.
  induction s as [|c s IH]; simpl; [done|]. intros [Hc Hs].
  destruct (Js.is_whitespace c); [by apply IH|done].
Qed.

Lemma trimEnd_tagless s : tagless s → tagless (Js.trimEnd s).
Proof.
  induction s as [|c s IH]; simpl; [done|]. intros [Hc Hs].
  destruct (_ && _); [done|]. simpl. split; [done|by apply IH].
Qed.

Lemma trim_tagless s : tagless s → tagless (Js.trim s).
Proof. intros Hs. by apply trimEnd_tagless, trimStart_tagless. Qed.

(** X23: behind the middleware no markup reaches the store: whatever the
    first replacement does, the content of a message sent with a sanitized
    body has no ['<']. *)
Theorem sanitized_send_tagless strip_scripts env st req :
  succeeded (out_result (sendMessage env st (Server.sanitize_send strip_scripts req)))
  = true →
  ∃ m,
    messages (out_store (sendMessage env st (Server.sanitize_send strip_scripts req)))
    = messages st ++ [m]
    ∧ tagless (content m).
Proof.
  intros Hok.
  destruct (send_appended env st _ Hok) as (m & Hm & _ & _ & _ & Hc).
  exists m. split; [done|]. rewrite Hc. apply trim_tagless.
  unfold raw_content, Server.sanitize_send, Server.sanitize. simpl.
  destruct (sr_content req); simpl; [apply strip_from_tagless|done].
Qed.

(** * More instances on sample data *)

Lemma greeting_sent :
  succeeded (out_result (sendMessage Fixture.env Fixture.quiet Sample.greeting)) = true.
Proof. vm_compute. reflexivity. Defined.

Lemma send_persists_witness :
  succeeded (out_result (sendMessage Fixture.env Fixture.quiet Sample.greeting)) = true
  ∧ ∃ m, messages (out_store (sendMessage Fixture.env Fixture.quiet Sample.greeting))
         = [m]
         ∧ content m = "hi"
         ∧ ObjectId.cast Fixture.hexB = Some (receiver m).
Proof.
  split; [exact greeting_sent|].
  destruct (send_persists Fixture.env Fixture.quiet Sample.greeting greeting_sent)
    as (m & Hm & _ & _ & _ & _ & (r & Hr & Hcast) & Hc & _).
  exists m. split_and!; [exact Hm| |].
  - rewrite Hc. vm_compute. reflexivity.
  - injection Hr as <-. exact Hcast.
Defined.

Lemma send_attachments_witness :
  succeeded (out_result (sendMessage Fixture.env Fixture.quiet
               (Fixture.upload_request [Fixture.picture]))) = true
  ∧ ∃ m, messages (out_store (sendMessage Fixture.env Fixture.quiet
                     (Fixture.upload_request [Fixture.picture]))) = [m]
         ∧ Forall2 describes (attachments m)
             (uploadedFiles (Fixture.upload_request [Fixture.picture])).
Proof.
  assert (succeeded (out_result (sendMessage Fixture.env Fixture.quiet
            (Fixture.upload_request [Fixture.picture]))) = true) as Hok.
  { vm_compute. reflexivity. }
  split; [exact Hok|].
  destruct (send_attachments Fixture.env Fixture.quiet
              (Fixture.upload_request [Fixture.picture]) Hok) as (m & Hm & Hd & _).
  exists m. split; [exact Hm|exact Hd].
Defined.

Lemma send_refusal_leaves_files_witness :
  deliverable Fixture.quiet (Fixture.upload_request [Fixture.picture; Fixture.archive])
  ∧ uploadedFiles (Fixture.upload_request [Fixture.picture; Fixture.archive])
    = [Fixture.picture] ++ Fixture.archive :: []
  ∧ Forall accepted [Fixture.picture] ∧ refused Fixture.archive
  ∧ length (out_files (sendMessage Fixture.env Fixture.quiet
                         (Fixture.upload_request [Fixture.picture; Fixture.archive])))
    = 1%nat.
Proof.
  assert (deliverable Fixture.quiet
            (Fixture.upload_request [Fixture.picture; Fixture.archive])) as Hd.
  { apply bob_deliverable; reflexivity. }
  assert (uploadedFiles (Fixture.upload_request [Fixture.picture; Fixture.archive])
          = [Fixture.picture] ++ Fixture.archive :: []) as Hf.
  { vm_compute. reflexivity. }
  assert (Forall accepted [Fixture.picture]) as Hgood.
  { apply (bool_decide_unpack _). vm_compute. exact I. }
  assert (refused Fixture.archive) as Hbad.
  { apply (bool_decide_unpack _). vm_compute. exact I. }
  split_and!; [exact Hd|exact Hf|exact Hgood|exact Hbad|].
  apply (send_refusal_leaves_files Fixture.env Fixture.quiet
           (Fixture.upload_request [Fixture.picture; Fixture.archive])
           [Fixture.picture] Fixture.archive [] Hd); [|exact Hf|exact Hgood|exact Hbad].
  vm_compute. discriminate.
Defined.

Lemma mark_all_cast :
  mapM ObjectId.cast (listed (mr_messageIds Sample.mark_all))
  = Some [Fixture.m1; Fixture.m2; Fixture.m3].
Proof. vm_compute. reflexivity. Defined.

(** alice marks the three messages of the sample chat: the two addressed to
    her are modified; with something that is no identifier in the list, the
    answer is 500 and nothing is marked. *)
Lemma mark_read_counts_witness :
  no_ids (mr_messageIds Sample.mark_all) = false
  ∧ (∃ n, out_result (markMessagesAsRead Fixture.env Fixture.chat Sample.mark_all)
          = ok 200 (Some ("Marked " +:+ pretty n +:+ " messages as read")) (Some n)
          ∧ n = 2%nat)
  ∧ ObjectId.cast "abc" = None
  ∧ markMessagesAsRead Fixture.env Fixture.chat Sample.mark_some
    = answer Fixture.chat (fail 500 msg_mark_failed).
Proof.
  destruct (mark_read_counts Fixture.env Fixture.chat Sample.mark_all)
    as (_ & _ & Hcount).
  destruct (mark_read_counts Fixture.env Fixture.chat Sample.mark_some)
    as (_ & Hfail & _).
  split_and!; [reflexivity| |vm_compute; reflexivity|].
  - destruct (Hcount _ eq_refl mark_all_cast) as (n & Hres & Hn & _).
    exists n. split; [exact Hres|]. rewrite Hn. vm_compute. reflexivity.
  - apply (Hfail "abc"); [reflexivity| |vm_compute; reflexivity].
    right. left.
Defined.


Lemma mark_read_idempotent_witness :
  no_ids (mr_messageIds Sample.mark_all) = false
  ∧ is_Some (mapM ObjectId.cast (listed (mr_messageIds Sample.mark_all)))
  ∧ out_result (markMessagesAsRead Fixture.later
                  (out_store (markMessagesAsRead Fixture.env Fixture.chat
                                Sample.mark_all))
                  Sample.mark_all)
    = ok 200 (Some "Marked 0 messages as read") (Some 0%nat).
Proof.
  assert (is_Some (mapM ObjectId.cast (listed (mr_messageIds Sample.mark_all))))
    as Hcast.
  { eexists. exact mark_all_cast. }
  destruct (mark_read_idempotent Fixture.env Fixture.later Fixture.chat Sample.mark_all)
    as (_ & Hzero & _).
  split_and!; [reflexivity|exact Hcast|exact (Hzero eq_refl Hcast)].
Defined.

Lemma sweep_ignores_page_witness :
  ObjectId.cast (cr_userId Fixture.open_chat) = Some Fixture.idB
  ∧ is_Some (users Fixture.chat !! Fixture.idB)
  ∧ valid_page Fixture.open_chat ∧ valid_page Sample.far_page
  ∧ out_store (getConversation Fixture.env Fixture.chat Sample.far_page)
    = out_store (getConversation Fixture.env Fixture.chat Fixture.open_chat)
  ∧ returned (getConversation Fixture.env Fixture.chat Sample.far_page) = [].
Proof.
  assert (valid_page Sample.far_page) as Hfar.
  { unfold valid_page. simpl. lia. }
  destruct (sweep_ignores_page Fixture.env Fixture.chat Fixture.open_chat
              Sample.far_page Fixture.idB bob_cast bob_registered open_chat_valid
              Hfar eq_refl eq_refl)
    as (Hst & _ & Hnone).
  split_and!; [exact bob_cast|exact bob_registered|exact open_chat_valid|exact Hfar
              |exact Hst|].
  apply Hnone. vm_compute. lia.
Defined.

(** A :userId that is no ObjectId, and one that nobody has. *)
Lemma conversation_refused_witness :
  ObjectId.cast (cr_userId (page_request Fixture.alice "abc" 1 2)) = None
  ∧ getConversation Fixture.env Fixture.chat (page_request Fixture.alice "abc" 1 2)
    = answer Fixture.chat (Threw (CastError "_id" "abc"))
  ∧ (∃ p, ObjectId.cast (cr_userId Sample.to_stranger) = Some p
          ∧ users Fixture.chat !! p = None)
  ∧ getConversation Fixture.env Fixture.chat Sample.to_stranger
    = answer Fixture.chat (fail 404 "User not found").
Proof.
  assert (ObjectId.cast (cr_userId (page_request Fixture.alice "abc" 1 2)) = None)
    as Hbad.
  { vm_compute. reflexivity. }
  assert (ObjectId.cast (cr_userId Sample.to_stranger)
          = Some (Sample.stranger ↾ I)) as Hc.
  { vm_compute. reflexivity. }
  assert (users Fixture.chat !! (Sample.stranger ↾ I : ObjectId.t) = None) as Hnone.
  { vm_compute. reflexivity. }
  destruct (conversation_refused Fixture.env Fixture.chat
              (page_request Fixture.alice "abc" 1 2)) as (Hthrow & _).
  destruct (conversation_refused Fixture.env Fixture.chat Sample.to_stranger)
    as (_ & Hmiss).
  split_and!; [exact Hbad|exact (proj1 (Hthrow Hbad))|by eexists|].
  exact (Hmiss _ Hc Hnone).
Defined.

Lemma conversation_pagination_witness :
  ObjectId.cast (cr_userId Fixture.open_chat) = Some Fixture.idB
  ∧ is_Some (users Fixture.chat !! Fixture.idB)
  ∧ valid_page Fixture.open_chat
  ∧ 0 < int_or (cr_limit Fixture.open_chat) 50
  ∧ ∃ d, out_result (getConversation Fixture.env Fixture.chat Fixture.open_chat)
         = ok 200 None (Some d)
         ∧ pg_total (cd_pagination d) = 3%nat.
Proof.
  assert (0 < int_or (cr_limit Fixture.open_chat) 50) as Hl by (simpl; lia).
  destruct (conversation_pagination Fixture.env Fixture.chat Fixture.open_chat
              Fixture.idB bob_cast bob_registered open_chat_valid Hl)
    as (d & Hres & Htot & _).
  split_and!; [exact bob_cast|exact bob_registered|exact open_chat_valid|exact Hl|].
  exists d. split; [exact Hres|]. rewrite Htot. vm_compute. reflexivity.
Defined.

(** The two pages of size 2 of the sample chat, laid end to end, are its
    three messages, newest first. *)
Lemma pages_cover_witness :
  ObjectId.cast Fixture.hexB = Some Fixture.idB
  ∧ is_Some (users Fixture.chat !! Fixture.idB)
  ∧ (length (filter (between (au_id Fixture.alice) Fixture.idB)
               (messages Fixture.chat)) ≤ 2 * 2)%nat
  ∧ NoDup (createdAt <$> filter (between (au_id Fixture.alice) Fixture.idB)
                           (messages Fixture.chat))
  ∧ concat ((λ i, reverse (returned (getConversation Fixture.env Fixture.chat
                     (page_request Fixture.alice Fixture.hexB (Z.of_nat (S i))
                        (Z.of_nat 2))))) <$> seq 0 2)
    = [Fixture.note Fixture.m3 Fixture.idB Fixture.idA 30 false;
       Fixture.note Fixture.m2 Fixture.idB Fixture.idA 20 false;
       Fixture.note Fixture.m1 Fixture.idA Fixture.idB 10 true].
Proof.
  assert (length (filter (between (au_id Fixture.alice) Fixture.idB)
                    (messages Fixture.chat)) ≤ 2 * 2)%nat as Hlen.
  { vm_compute. lia. }
  assert (NoDup (createdAt <$> filter (between (au_id Fixture.alice) Fixture.idB)
                                 (messages Fixture.chat))) as Hnd.
  { apply (bool_decide_unpack _). vm_compute. exact I. }
  split_and!; [exact bob_cast|exact bob_registered|exact Hlen|exact Hnd|].
  apply (pages_cover Fixture.env Fixture.chat Fixture.alice Fixture.hexB Fixture.idB
           2 2 bob_cast bob_registered ltac:(lia) Hlen Hnd).
  - apply (bool_decide_unpack _). vm_compute. exact I.
  - apply (bool_decide_unpack _). vm_compute. exact I.
Defined.

Lemma mark_announced_is_sweep_witness :
  NoDup (m_id <$> messages Fixture.chat)
  ∧ ObjectId.cast (cr_userId Fixture.open_chat) = Some Fixture.idB
  ∧ is_Some (users Fixture.chat !! Fixture.idB)
  ∧ valid_page Fixture.open_chat
  ∧ out_store (markMessagesAsRead Fixture.env Fixture.chat
                 {| mr_user := Fixture.alice;
                    mr_messageIds :=
                      ArrayIds (ObjectId.toString <$>
                        (m_id <$> filter (unread_from Fixture.idB Fixture.idA)
                                    (messages Fixture.chat))) |})
    = out_store (getConversation Fixture.env Fixture.chat Fixture.open_chat).
Proof.
  split_and!; [exact chat_unique|exact bob_cast|exact bob_registered
              |exact open_chat_valid|].
  exact (mark_announced_is_sweep Fixture.env Fixture.chat Fixture.open_chat
           Fixture.idB chat_unique bob_cast bob_registered open_chat_valid).
Defined.

Lemma chat_sound : Forall sound (messages Fixture.chat).
Proof. apply (bool_decide_unpack _). vm_compute. exact I. Defined.

(** On top of the sample chat alice writes to bob, bob opens the
    conversation, and alice takes her message back. *)
Lemma store_stays_sound_witness :
  Forall sound (messages Fixture.chat)
  ∧ Forall sound (messages (serve Sample.session Fixture.chat))
  ∧ length (messages (serve Sample.session Fixture.chat)) = 3%nat
  ∧ isRead <$> messages (serve Sample.session Fixture.chat) = [true; false; false].
Proof.
  split_and!; [exact chat_sound| |vm_compute; reflexivity..].
  apply (store_stays_sound Sample.session Fixture.chat chat_sound).
Defined.

Lemma read_is_final_witness :
  Fixture.note Fixture.m1 Fixture.idA Fixture.idB 10 true ∈ messages Fixture.chat
  ∧ (Fixture.note Fixture.m1 Fixture.idA Fixture.idB 10 true
       ∈ messages (dispatch Fixture.chat
                     (PutMarkRead Fixture.later Sample.mark_all))
     ∨ ∃ env user id,
         PutMarkRead Fixture.later Sample.mark_all = DeleteMessage env user id
         ∧ ObjectId.cast id
           = Some (m_id (Fixture.note Fixture.m1 Fixture.idA Fixture.idB 10 true))).
Proof.
  assert (Fixture.note Fixture.m1 Fixture.idA Fixture.idB 10 true
            ∈ messages Fixture.chat) as Hin by left.
  split; [exact Hin|].
  apply (read_is_final Fixture.chat (PutMarkRead Fixture.later Sample.mark_all)
           _ Hin). reflexivity.
Defined.

Lemma send_then_delete_witness :
  succeeded (out_result (sendMessage Fixture.env Fixture.quiet Sample.greeting)) = true
  ∧ (fresh_id Fixture.env ∉ m_id <$> messages Fixture.quiet)
  ∧ out_store (deleteMessage Fixture.later
                 (out_store (sendMessage Fixture.env Fixture.quiet Sample.greeting))
                 (sr_user Sample.greeting) (ObjectId.toString (fresh_id Fixture.env)))
    = Fixture.quiet.
Proof.
  assert (fresh_id Fixture.env ∉ m_id <$> messages Fixture.quiet) as Hfresh.
  { simpl. apply not_elem_of_nil. }
  split_and!; [exact greeting_sent|exact Hfresh|].
  apply (send_then_delete Fixture.env Fixture.later Fixture.quiet Sample.greeting
           greeting_sent Hfresh).
Defined.

Lemma delete_once_witness :
  NoDup (m_id <$> messages Fixture.chat)
  ∧ succeeded (out_result (deleteMessage Fixture.env Fixture.chat Fixture.alice
                             (ObjectId.toString Fixture.m1))) = true
  ∧ deleteMessage Fixture.later
      (out_store (deleteMessage Fixture.env Fixture.chat Fixture.alice
                    (ObjectId.toString Fixture.m1)))
      Fixture.alice (ObjectId.toString Fixture.m1)
    = answer (out_store (deleteMessage Fixture.env Fixture.chat Fixture.alice
                           (ObjectId.toString Fixture.m1)))
        (fail 404 msg_delete_refused).
Proof.
  assert (succeeded (out_result (deleteMessage Fixture.env Fixture.chat Fixture.alice
                                   (ObjectId.toString Fixture.m1))) = true) as Hok.
  { vm_compute. reflexivity. }
  split_and!; [exact chat_unique|exact Hok|].
  apply (delete_once Fixture.env Fixture.later Fixture.chat Fixture.alice
           Fixture.alice (ObjectId.toString Fixture.m1) chat_unique Hok).
Defined.

Lemma chat_senders_registered :
  ∀ m, m ∈ messages Fixture.chat → unread_for (au_id Fixture.alice) m →
       is_Some (users Fixture.chat !! sender m).
Proof.
  intros m Hm _. simpl in Hm.
  repeat (apply elem_of_cons in Hm as [->|Hm];
          [eexists; vm_compute; reflexivity|]).
  by apply elem_of_nil in Hm.
Defined.

Lemma list_unread_exact_witness :
  (∀ m, m ∈ messages Fixture.chat → unread_for (au_id Fixture.alice) m →
        is_Some (users Fixture.chat !! sender m))
  ∧ unread_total (aggregate Fixture.chat (au_id Fixture.alice))
    = unreadCount Fixture.chat (au_id Fixture.alice)
  ∧ unreadCount Fixture.chat (au_id Fixture.alice) = 2%nat.
Proof.
  split_and!; [exact chat_senders_registered| |vm_compute; reflexivity].
  apply (list_unread_exact Fixture.chat Fixture.alice chat_senders_registered).
Defined.

Lemma open_clears_row_witness :
  ObjectId.cast (cr_userId Fixture.open_chat) = Some Fixture.idB
  ∧ is_Some (users Fixture.chat !! Fixture.idB)
  ∧ valid_page Fixture.open_chat
  ∧ (∀ r, r ∈ aggregate (out_store (getConversation Fixture.env Fixture.chat
                                      Fixture.open_chat))
                (au_id (cr_user Fixture.open_chat)) →
          c_id r = Fixture.idB → c_unreadCount r = 0%nat)
  ∧ (λ r, (c_id r, c_unreadCount r))
      <$> aggregate (out_store (getConversation Fixture.env Fixture.chat
                                  Fixture.open_chat))
            (au_id (cr_user Fixture.open_chat))
    = [(Fixture.idB, 0%nat)].
Proof.
  split_and!; [exact bob_cast|exact bob_registered|exact open_chat_valid|
               |vm_compute; reflexivity].
  apply (open_clears_row Fixture.env Fixture.chat Fixture.open_chat Fixture.idB
           bob_cast bob_registered open_chat_valid).
Defined.

Lemma delete_user_orphans_witness :
  ObjectId.cast Fixture.hexB = Some Fixture.idB
  ∧ is_Some (users Fixture.chat !! Fixture.idB)
  ∧ Fixture.idB ≠ au_id Fixture.alice
  ∧ messages (out_store (deleteUser Fixture.chat Fixture.alice Fixture.hexB))
    = messages Fixture.chat
  ∧ Fixture.idB
    ∉ c_id <$> aggregate (out_store (deleteUser Fixture.chat Fixture.alice
                                       Fixture.hexB))
                 Fixture.idA.
Proof.
  assert (Fixture.idB ≠ au_id Fixture.alice) as Hne by discriminate.
  destruct (delete_user_orphans Fixture.chat Fixture.alice Fixture.hexB Fixture.idB
              bob_cast bob_registered Hne) as (_ & _ & Hm & _ & Hrows & _).
  split_and!; [exact bob_cast|exact bob_registered|exact Hne|exact Hm|apply Hrows].
Defined.

Lemma sanitized_send_tagless_witness :
  succeeded (out_result (sendMessage Fixture.env Fixture.quiet
               (Server.sanitize_send (λ s, s) Sample.markup))) = true
  ∧ ∃ m, messages (out_store (sendMessage Fixture.env Fixture.quiet
                     (Server.sanitize_send (λ s, s) Sample.markup))) = [m]
         ∧ tagless (content m).
Proof.
  assert (succeeded (out_result (sendMessage Fixture.env Fixture.quiet
            (Server.sanitize_send (λ s, s) Sample.markup))) = true) as Hok.
  { vm_compute. reflexivity. }
  split; [exact Hok|].
  exact (sanitized_send_tagless (λ s, s) Fixture.env Fixture.quiet Sample.markup Hok).
Defined.

(** The sample markup as it is stored. *)
Example sanitized_markup_sample :
  content <$> messages (out_store (sendMessage Fixture.env Fixture.quiet
                          (Server.sanitize_send (λ s, s) Sample.markup)))
  = ["hi there"].
Proof. vm_compute. reflexivity. Qed.
